(** * price-cache-dashboard: the client-side data-acquisition core

    A shallow embedding of
      - [client/src/lib/api.ts]          (fallback synthesizer, REST client,
                                          latency statistics),
      - [client/src/hooks/useWebSocket.ts] (stream client with reconnection),
      - [client/src/lib/export.ts]       (CSV serializers),
      - the metrics-history update of the Observability page,
    followed by the properties of the specification.

    Conventions of the embedding.
      - A JavaScript [number] that carries a measurement is a rational
        ([Q]); counters are integers ([Z]).  Rounding done by the code
        ([Math.floor], [toFixed]) is written out.  The sums, quotients,
        products and differences of the statistics ([calculateStats], the
        distribution, the synthetic rates, the export summaries, the
        measured times) are rounded to the nearest binary64 number as the
        machine does ([Js.binary64]), with [Infinity] beyond the range;
        the arithmetic of the quote generator is written over the
        rationals.
      - [Math.random()] and [Date.now()] are inputs: every function that draws
        random numbers receives the draws it consumes.
      - A [Record<string, T>] is a [gmap string T].
      - An [async] function is a function into [Promise], whose values are
        [Pending] (never settles), [Fulfilled v] or [Rejected e]. *)

From Stdlib Require Import Ascii QArith Qround Qabs Qpower Lqa.
From Stdlib Require Import Sorting.Sorted Sorting.Permutation.
From stdpp Require Import gmap strings list pretty.

Local Open Scope Z_scope.

(* ===================================================================== *)
(** * Part I: the embedding                                                *)
(* ===================================================================== *)

(** ** JavaScript values and control *)
Module Js.

(** The error kinds of the client (network failure, time-out, bad
    payload, ...).  [InvalidArgument] is listed by the specification;
    no statement of the code raises it. *)
Inductive ErrorKind :=
| Timeout
| NetworkUnreachable
| NonSuccessStatus
| MalformedPayload
| ChannelClosed
| InvalidArgument.

(** Completion of a synchronous call: a value, or a thrown error. *)
Inductive completion (A : Type) :=
| Normal (a : A)
| Throw (e : ErrorKind).
Arguments Normal {A} a.
Arguments Throw {A} e.

(** The result of reading a number out of an array or of arithmetic:
    [undefined], [NaN], a finite number, or [Infinity] / [-Infinity]. *)
Inductive value :=
| Undefined
| NaN
| Num (q : Q)
| Infinity (negative : bool).

(** [arr[i]] *)
Definition index (arr : list Q) (i : nat) : value :=
  match arr !! i with
  | Some x => Num x
  | None => Undefined
  end.

(** *** binary64 arithmetic

    The machine rounds the exact result of [+], [*] and [/] to the nearest
    number [m * 2^e] with [|m| <= 2^53] and [e >= -1074], the one with even
    [m] when two are equally near, and to an infinity when that number is
    [2^1024] or beyond. *)

Definition pow2 (e : Z) : Q := (2 ^ e)%Q.

(** The nearest integer, the even one on a tie. *)
Definition round_even (x : Q) : Z :=
  let f := Qfloor x in
  match (x - inject_Z f ?= 1 # 2)%Q with
  | Lt => f
  | Gt => f + 1
  | Eq => if Z.even f then f else f + 1
  end.

(** [floor (log2 x)] for [x > 0]. *)
Definition ilog2 (x : Q) : Z :=
  let k := Z.log2 (Qnum x) - Z.log2 (Zpos (Qden x)) in
  if Qle_bool (pow2 k) x then k else k - 1.

(** The exponent of the last place of the binary64 numbers around [x]:
    53 significant bits, and no exponent below that of the subnormal
    numbers. *)
Definition exponent (x : Q) : Z :=
  if Qeq_bool x 0 then -1074 else Z.max (-1074) (ilog2 (Qabs x) - 52).

(** The binary64 number nearest to [x] (in an unbounded exponent range). *)
Definition binary64 (x : Q) : Q :=
  let e := exponent x in
  (inject_Z (round_even (x / pow2 e)) * pow2 e)%Q.

(** The value of an operation whose exact result is [x]. *)
Definition number (x : Q) : value :=
  let y := binary64 x in
  if Qle_bool (pow2 1024) (Qabs y) then Infinity (negb (Qle_bool 0 y))
  else Num y.

(** [a + b] *)
Definition add (a b : value) : value :=
  match a, b with
  | Num x, Num y => number (x + y)
  | Infinity s, Num _ | Num _, Infinity s => Infinity s
  | Infinity s, Infinity t => if Bool.eqb s t then Infinity s else NaN
  | _, _ => NaN
  end.

(** [a * b] *)
Definition mul (a b : value) : value :=
  match a, b with
  | Num x, Num y => number (x * y)
  | Infinity s, Num y | Num y, Infinity s =>
      if Qeq_bool y 0 then NaN else Infinity (xorb s (negb (Qle_bool 0 y)))
  | Infinity s, Infinity t => Infinity (xorb s t)
  | _, _ => NaN
  end.

(** [total / len] for [len = arr.length]; [0 / 0] is [NaN], and any other
    number divided by 0 is an infinity. *)
Definition div_by_length (total : value) (len : nat) : value :=
  match total with
  | Num t =>
      if Nat.eqb len 0 then
        if Qeq_bool t 0 then NaN else Infinity (negb (Qle_bool 0 t))
      else number (t / inject_Z (Z.of_nat len))
  | Infinity s => Infinity s
  | _ => NaN
  end.

(** [Math.floor(x)] as an array index. *)
Definition floor_index (x : Q) : nat := Z.to_nat (Qfloor x).

(** [arr.reduce((a, b) => a + b, 0)] *)
Definition reduce_add (arr : list Q) : value :=
  fold_left (fun a b => add a (Num b)) arr (Num 0).

(** [arr.sort(cmp)]: the sort is stable; [cmp x y <= 0] keeps [x] before
    [y].  Insertion from the right gives exactly this order. *)
Fixpoint sort_insert (cmp : Q -> Q -> Q) (x : Q) (l : list Q) : list Q :=
  match l with
  | [] => [x]
  | y :: l' =>
      if Qle_bool (cmp x y) 0%Q then x :: y :: l'
      else y :: sort_insert cmp x l'
  end.

Fixpoint sort (cmp : Q -> Q -> Q) (l : list Q) : list Q :=
  match l with
  | [] => []
  | x :: l' => sort_insert cmp x (sort cmp l')
  end.

(** The integer [n] that [x.toFixed(d)] prints: the nearest integer to
    [|x| * 10^d], the larger one on a tie. *)
Definition toFixed_digits (x : Q) (d : nat) : Z :=
  Qfloor (Qabs x * inject_Z (10 ^ Z.of_nat d) + 0.5)%Q.

(** [parseFloat(x.toFixed(d))] *)
Definition round_fixed (x : Q) (d : nat) : Q :=
  let n := (inject_Z (toFixed_digits x d) / inject_Z (10 ^ Z.of_nat d))%Q in
  if Qlt_le_dec x 0%Q then (- n)%Q else n.

(** [Math.floor(x)] *)
Definition floor (x : Q) : Z := Qfloor x.

(** [arr.slice(start)] *)
Definition slice {A} (start : Z) (arr : list A) : list A :=
  let len := Z.of_nat (length arr) in
  let k := if start <? 0 then Z.max (len + start) 0 else Z.min start len in
  drop (Z.to_nat k) arr.

Fixpoint zeros (n : nat) : string :=
  match n with
  | O => EmptyString
  | S n' => String "0"%char (zeros n')
  end.

(** [x.toFixed(d)] for [|x| < 1e21]: the digits of [toFixed_digits x d],
    padded with zeros to at least [d + 1] places, a point before the last
    [d] of them when [d > 0], and a minus sign when [x < 0]. *)
Definition toFixed (x : Q) (d : nat) : string :=
  let m := pretty (toFixed_digits x d) in
  let m := zeros (S d - String.length m) +:+ m in
  let k := (String.length m - d)%nat in
  (if Qlt_le_dec x 0%Q then "-" else EmptyString)
  +:+ String.substring 0 k m
  +:+ (if Nat.eqb d 0 then EmptyString else "." +:+ String.substring k d m).

(** [`${n}`] for an integer [n]. *)
Definition show (n : Z) : string := pretty n.

(** [arr.join(sep)] *)
Definition join (sep : string) (arr : list string) : string :=
  String.concat sep arr.

End Js.

(** ** StatsEngine: [calculateStats] of api.ts *)
Module StatsEngine.
Import Js.

Record LatencyStats := {
  min : value;
  max : value;
  mean : value;
  median : value;
  p95 : value;
  p99 : value;
}.

(** [calculateStats(latencies)].  The comparator [a - b] and the products
    [len * 0.95], [len * 0.99] are written over the rationals: the
    difference of two different binary64 numbers does not round to 0, and
    for a length below 2^32 the rounded product has the floor of the exact
    one; the sum and the quotient of [mean] are rounded. *)
Definition calculateStats (latencies : list Q) : completion LatencyStats :=
  let sorted := sort (fun a b => a - b)%Q latencies in
  let len := length sorted in
  Normal {|
    min := index sorted 0;
    max := index sorted (len - 1)%nat;  (* [sorted[-1]] and [sorted[0]] are
                                           both [undefined] when [len = 0] *)
    mean := div_by_length (reduce_add sorted) len;
    median := index sorted (floor_index (inject_Z (Z.of_nat len) / 2)%Q);
    p95 := index sorted (floor_index (inject_Z (Z.of_nat len) * 0.95)%Q);
    p99 := index sorted (floor_index (inject_Z (Z.of_nat len) * 0.99)%Q);
  |}.

End StatsEngine.

(** ** FallbackSynthesizer and PriceFeedClient: api.ts *)
Module Api.
Import Js.

Record PriceData := {
  symbol : string;
  price : Q;
  bid : Q;
  ask : Q;
  volume : Z;
  timestamp : string;
  latency_ns : Z;
  latency_us : Q;
  source : string;
}.

Record CacheStats := {
  cache_hits : Z;
  cache_misses : Z;
  total_requests : Z;
  hit_rate_percent : Q;
  avg_latency_us : Q;
}.

(** What the functions read from their surroundings: the build mode,
    the clock, and the successive results of [Math.random()]. *)
Record Env := {
  PROD : bool;
  now : Z;                 (* Date.now() *)
  isoNow : string;         (* new Date().toISOString() *)
  random : nat -> Q;       (* the k-th call of Math.random() *)
}.

Definition API_BASE_URL (env : Env) : string :=
  if PROD env
  then "https://8000-i1glh2xemmtgdmn5i8m2x-acd71ebb.us2.manus.computer"
  else "/api".

(** *** Module state *)
Record FallbackState := {
  fallbackDataCache : gmap string PriceData;
  lastFallbackUpdate : Z;
}.

Definition initial : FallbackState :=
  {| fallbackDataCache := ∅; lastFallbackUpdate := 0 |}.

Definition basePrice : gmap string Q :=
  <["AAPL" := 181.5%Q]> (<["MSFT" := 445.0%Q]> (<["GOOGL" := 140.0%Q]>
    (<["AMZN" := 196.0%Q]> (<["TSLA" := 242.0%Q]> ∅)))).

(** [generateFallbackPriceData(symbol)]; [rnd 0 .. rnd 3] are its four
    calls of [Math.random()], in evaluation order.  [basePrice[symbol] || 150]
    is written out for a symbol that is a key of [basePrice] or names no
    member at all; [getFallbackData], the only caller, passes the five
    keys.  (For a name that every object inherits, such as [constructor]
    or [toString], the lookup yields a function and [price.toFixed]
    raises.) *)
Definition generateFallbackPriceData
    (iso : string) (rnd : nat -> Q) (symbol : string) : PriceData :=
  let base := default 150%Q (basePrice !! symbol) in
  let volatility := ((rnd 0%nat - 0.5) * 2)%Q in
  let price := (base + volatility)%Q in
  let spread := (price * 0.001)%Q in
  {| symbol := symbol;
     price := round_fixed price 2;
     bid := round_fixed (price - spread) 2;
     ask := round_fixed (price + spread) 2;
     volume := floor (rnd 1%nat * 10000000)%Q;
     timestamp := iso;
     latency_ns := floor (rnd 2%nat * 1000)%Q + 100;
     latency_us := round_fixed (rnd 3%nat * 0.8 + 0.1)%Q 2;
     source := "fallback" |}.

Definition symbols : list string := ["AAPL"; "MSFT"; "GOOGL"; "AMZN"; "TSLA"].

(** The [forEach] of [getFallbackData]: the i-th symbol consumes the
    draws [4 i .. 4 i + 3]. *)
Definition regenerate (env : Env) : gmap string PriceData :=
  foldl (fun cache '(i, symbol) =>
           <[symbol := generateFallbackPriceData (isoNow env)
                         (fun k => random env (4 * i + k)%nat) symbol]> cache)
        ∅ (imap pair symbols).

Definition cacheExpiry : Z := 2000.

(** [getFallbackData(forceRefresh)]: the new module state and the
    returned mapping, which is the cache object itself. *)
Definition getFallbackData (forceRefresh : bool) (env : Env) (st : FallbackState)
    : FallbackState * gmap string PriceData :=
  if forceRefresh
     || bool_decide (now env - lastFallbackUpdate st > cacheExpiry)
     || bool_decide (size (fallbackDataCache st) = 0%nat)
  then
    let cache := regenerate env in
    ({| fallbackDataCache := cache; lastFallbackUpdate := now env |}, cache)
  else (st, fallbackDataCache st).

(** *** The network *)

(** How the endpoint behaves for one request. *)
Inductive Server (B : Type) :=
| Silent                       (* accepts the request and never answers *)
| Fails (at_ms : Z)            (* the transport fails after [at_ms] *)
| Answers (at_ms : Z) (ok : bool) (status : Z) (json : completion B).
                               (* answers after [at_ms]; [json] is the
                                  outcome of [response.json()] *)
Arguments Silent {B}.
Arguments Fails {B} at_ms.
Arguments Answers {B} at_ms ok status json.

Record Response (B : Type) := {
  ok : bool;
  status : Z;
  json : completion B;
}.
Arguments ok {B} r.
Arguments status {B} r.
Arguments json {B} r.

Inductive Promise (A : Type) :=
| Pending
| Fulfilled (a : A)
| Rejected (e : ErrorKind).
Arguments Pending {A}.
Arguments Fulfilled {A} a.
Arguments Rejected {A} e.

(** The second argument of [fetch]: [signal = Some t] is
    [{ signal: AbortSignal.timeout(t) }], [None] is no init object. *)
Record Request := {
  url : string;
  signal : option Z;
}.

(** [await fetch(url, init)].  A time-out signal rejects the request when
    the answer has not arrived in time; without one the request waits. *)
Definition fetch {B} (req : Request) (srv : Server B) : Promise (Response B) :=
  match srv, signal req with
  | Silent, Some _ => Rejected Timeout
  | Silent, None => Pending
  | Fails t, Some limit =>
      if limit <? t then Rejected Timeout else Rejected NetworkUnreachable
  | Fails _, None => Rejected NetworkUnreachable
  | Answers t o s j, Some limit =>
      if limit <? t then Rejected Timeout
      else Fulfilled {| ok := o; status := s; json := j |}
  | Answers _ o s j, None => Fulfilled {| ok := o; status := s; json := j |}
  end.

(** [s.toUpperCase()] on ASCII text. *)
Definition upper_ascii (c : Ascii.ascii) : Ascii.ascii :=
  let n := Ascii.nat_of_ascii c in
  if (97 <=? n)%nat && (n <=? 122)%nat then Ascii.ascii_of_nat (n - 32) else c.

Fixpoint toUpperCase (s : string) : string :=
  match s with
  | EmptyString => EmptyString
  | String c s' => String (upper_ascii c) (toUpperCase s')
  end.

(** *** [fetchPrice] *)

Definition fetchPrice_request (env : Env) (symbol : string) : Request :=
  {| url := API_BASE_URL env +:+ "/price/" +:+ toUpperCase symbol;
     signal := Some 5000 |}.

(** [getFallbackData()[symbol.toUpperCase()] || null] *)
Definition fallbackPrice (env : Env) (symbol : string) (st : FallbackState)
    : FallbackState * option PriceData :=
  let '(st', cache) := getFallbackData false env st in
  (st', cache !! toUpperCase symbol).

(** The body of [/price/SYMBOL] is a quote or [null]. *)
Definition fetchPrice (env : Env) (symbol : string)
    (srv : Server (option PriceData)) (st : FallbackState)
    : FallbackState * Promise (option PriceData) :=
  match fetch (fetchPrice_request env symbol) srv with
  | Pending => (st, Pending)
  | Fulfilled response =>
      if negb (ok response) then
        let '(st', r) := fallbackPrice env symbol st in (st', Fulfilled r)
      else
        match json response with
        | Normal body => (st, Fulfilled body)
        | Throw _ =>
            let '(st', r) := fallbackPrice env symbol st in (st', Fulfilled r)
        end
  | Rejected _ =>
      let '(st', r) := fallbackPrice env symbol st in (st', Fulfilled r)
  end.

(** *** [fetchAllPrices] *)

(** A member of [data.prices]: an object, or something a property cannot
    be assigned on ([null], a number, a string: a [TypeError] in module
    code). *)
Inductive PriceEntry :=
| NotAnObject
| Quote (q : PriceData).

(** [data.prices]: missing or [null], or a value with own keys. *)
Inductive PricesField :=
| Nullish
| Keyed (entries : gmap string PriceEntry).

Record BulkPayload := {
  prices : PricesField;
  batch_latency_us : Q;      (* data.latency_us *)
}.

Definition fetchAllPrices_request (env : Env) : Request :=
  {| url := API_BASE_URL env +:+ "/prices"; signal := None |}.

(** [q.latency_us = v] *)
Definition set_latency_us (v : Q) (q : PriceData) : PriceData :=
  {| symbol := symbol q; price := price q; bid := bid q; ask := ask q;
     volume := volume q; timestamp := timestamp q;
     latency_ns := latency_ns q; latency_us := v; source := source q |}.

(** [prices[symbol].latency_us = data.latency_us]; [None] when the
    assignment raises. *)
Definition stampEntry (v : Q) (e : PriceEntry) : option PriceData :=
  match e with
  | Quote q => Some (set_latency_us v q)
  | NotAnObject => None
  end.

Definition stamp (v : Q) (kv : string * PriceEntry)
    : option (string * PriceData) :=
  match stampEntry v kv.2 with
  | Some q => Some (kv.1, q)
  | None => None
  end.

(** [Object.keys(prices).forEach(...)], then [return prices]; [Throw] when
    [Object.keys] or an assignment raises. *)
Definition stampAll (data : BulkPayload) : completion (gmap string PriceData) :=
  match prices data with
  | Nullish => Throw MalformedPayload
  | Keyed entries =>
      match mapM (stamp (batch_latency_us data)) (map_to_list entries) with
      | Some stamped => Normal (list_to_map stamped)
      | None => Throw MalformedPayload
      end
  end.

(** The body of [/prices] is a value with the members [prices] and
    [latency_us], or [null] ([None]), on which reading [prices] raises. *)
Definition fetchAllPrices (env : Env)
    (srv : Server (option BulkPayload)) (st : FallbackState)
    : FallbackState * Promise (gmap string PriceData) :=
  match fetch (fetchAllPrices_request env) srv with
  | Pending => (st, Pending)
  | Fulfilled response =>
      if negb (ok response) then
        let '(st', r) := getFallbackData false env st in (st', Fulfilled r)
      else
        match json response with
        | Normal (Some data) =>
            match stampAll data with
            | Normal result => (st, Fulfilled result)
            | Throw _ =>
                let '(st', r) := getFallbackData false env st in (st', Fulfilled r)
            end
        | Normal None | Throw _ =>
            let '(st', r) := getFallbackData false env st in (st', Fulfilled r)
        end
  | Rejected _ =>
      let '(st', r) := getFallbackData false env st in (st', Fulfilled r)
  end.

(** *** [fetchStats] *)

Definition fetchStats_request (env : Env) : Request :=
  {| url := API_BASE_URL env +:+ "/stats"; signal := Some 5000 |}.

(** The object literal of both failure branches; five draws.  The two
    rates are sums of numbers well inside the binary64 range; [99.5] and
    [0.5] are binary64 numbers, [0.39] and [0.2] stand for the nearest
    ones. *)
Definition fallbackStats (env : Env) : CacheStats :=
  {| cache_hits := floor (random env 0%nat * 10000)%Q;
     cache_misses := floor (random env 1%nat * 100)%Q;
     total_requests := floor (random env 2%nat * 10100)%Q;
     hit_rate_percent :=
       binary64 (99.5 + binary64 (random env 3%nat * 0.5))%Q;
     avg_latency_us :=
       binary64 (binary64 0.39 + binary64 (random env 4%nat * binary64 0.2))%Q |}.

(** The body of [/stats]: [Some c] is [{cache_stats: c}] ([c = None] when
    the member is absent); [None] is [null]. *)
Definition fetchStats (env : Env) (srv : Server (option (option CacheStats)))
    : Promise (option CacheStats) :=
  match fetch (fetchStats_request env) srv with
  | Pending => Pending
  | Fulfilled response =>
      if negb (ok response) then Fulfilled (Some (fallbackStats env))
      else
        match json response with
        | Normal (Some cache_stats) => Fulfilled cache_stats
        | Normal None | Throw _ => Fulfilled (Some (fallbackStats env))
        end
  | Rejected _ => Fulfilled (Some (fallbackStats env))
  end.

(** *** [healthCheck] *)

Definition healthCheck_request (env : Env) : Request :=
  {| url := API_BASE_URL env +:+ "/health"; signal := Some 5000 |}.

Definition healthCheck {B} (env : Env) (srv : Server B) : Promise bool :=
  match fetch (healthCheck_request env) srv with
  | Pending => Pending
  | Fulfilled response => Fulfilled (ok response)
  | Rejected _ => Fulfilled false
  end.

End Api.

(** ** StreamClient: the [useWebSocket] hook *)
Module StreamClient.

Record Options := {
  ctor_error : option string;   (* [Some e]: [new WebSocket(wsUrl)] throws [e] *)
  reconnectInterval : Z;
  maxReconnectAttempts : nat;
}.

(** The defaults of the destructured parameter, for a well-formed url. *)
Definition defaults : Options :=
  {| ctor_error := None; reconnectInterval := 3000; maxReconnectAttempts := 5 |}.

Inductive ReadyState := CONNECTING | OPEN | CLOSING | CLOSED.

Inductive TimerState := Scheduled | Fired | Cleared.

Record Timer := {
  delay : Z;
  timer_state : TimerState;
}.

(** The refs and state of the hook, with the browser objects it created:
    every socket (by creation order) and every [setTimeout] (by id). *)
Record Hook := {
  sockets : list ReadyState;
  timers : list Timer;
  wsRef : option nat;
  reconnectAttemptsRef : nat;
  reconnectTimeoutRef : option nat;
  isConnected : bool;
  lastError : option string;
}.

Definition mounted : Hook :=
  {| sockets := []; timers := []; wsRef := None; reconnectAttemptsRef := 0;
     reconnectTimeoutRef := None; isConnected := false; lastError := None |}.

(** [connect()] *)
Definition connect (o : Options) (h : Hook) : Hook :=
  match ctor_error o with
  | None =>
      {| sockets := sockets h ++ [CONNECTING];
         timers := timers h;
         wsRef := Some (length (sockets h));
         reconnectAttemptsRef := reconnectAttemptsRef h;
         reconnectTimeoutRef := reconnectTimeoutRef h;
         isConnected := isConnected h;
         lastError := lastError h |}
  | Some e =>
      {| sockets := sockets h; timers := timers h; wsRef := wsRef h;
         reconnectAttemptsRef := reconnectAttemptsRef h;
         reconnectTimeoutRef := reconnectTimeoutRef h;
         isConnected := isConnected h;
         lastError := Some e |}
  end.

(** [ws.onopen] *)
Definition onopen (h : Hook) : Hook :=
  {| sockets := sockets h; timers := timers h; wsRef := wsRef h;
     reconnectAttemptsRef := 0;
     reconnectTimeoutRef := reconnectTimeoutRef h;
     isConnected := true;
     lastError := None |}.

(** [ws.onerror] *)
Definition onerror (h : Hook) : Hook :=
  {| sockets := sockets h; timers := timers h; wsRef := wsRef h;
     reconnectAttemptsRef := reconnectAttemptsRef h;
     reconnectTimeoutRef := reconnectTimeoutRef h;
     isConnected := isConnected h;
     lastError := Some "WebSocket connection error" |}.

(** [reconnectInterval * Math.pow(2, reconnectAttemptsRef.current)] *)
Definition backoffMs (o : Options) (attempt : nat) : Z :=
  reconnectInterval o * 2 ^ Z.of_nat attempt.

(** [ws.onclose] *)
Definition onclose (o : Options) (h : Hook) : Hook :=
  if (reconnectAttemptsRef h <? maxReconnectAttempts o)%nat then
    {| sockets := sockets h;
       timers := timers h ++ [ {| delay := backoffMs o (reconnectAttemptsRef h);
                                  timer_state := Scheduled |} ];
       wsRef := wsRef h;
       reconnectAttemptsRef := reconnectAttemptsRef h;
       reconnectTimeoutRef := Some (length (timers h));
       isConnected := false;
       lastError := lastError h |}
  else
    {| sockets := sockets h; timers := timers h; wsRef := wsRef h;
       reconnectAttemptsRef := reconnectAttemptsRef h;
       reconnectTimeoutRef := reconnectTimeoutRef h;
       isConnected := false;
       lastError := Some "Max reconnection attempts reached" |}.

(** The callback given to [setTimeout] in [ws.onclose]. *)
Definition ontimeout (o : Options) (h : Hook) : Hook :=
  connect o
    {| sockets := sockets h; timers := timers h; wsRef := wsRef h;
       reconnectAttemptsRef := reconnectAttemptsRef h + 1;
       reconnectTimeoutRef := reconnectTimeoutRef h;
       isConnected := isConnected h;
       lastError := lastError h |}.

(** [clearTimeout(id)]: a timer that has not fired yet never fires. *)
Definition clearTimeout (id : nat) (ts : list Timer) : list Timer :=
  match ts !! id with
  | Some {| delay := d; timer_state := Scheduled |} =>
      <[id := {| delay := d; timer_state := Cleared |}]> ts
  | _ => ts
  end.

(** [ws.close()]: a socket that is connecting or open starts closing; its
    [close] event is delivered later. *)
Definition close (id : nat) (ss : list ReadyState) : list ReadyState :=
  match ss !! id with
  | Some CONNECTING | Some OPEN => <[id := CLOSING]> ss
  | _ => ss
  end.

(** [disconnect()] *)
Definition disconnect (h : Hook) : Hook :=
  {| sockets := match wsRef h with Some id => close id (sockets h) | None => sockets h end;
     timers := match reconnectTimeoutRef h with
               | Some id => clearTimeout id (timers h)
               | None => timers h
               end;
     wsRef := None;
     reconnectAttemptsRef := reconnectAttemptsRef h;
     reconnectTimeoutRef := reconnectTimeoutRef h;
     isConnected := false;
     lastError := lastError h |}.

(** What can happen to a mounted hook: calls made by the component, and
    events delivered by the browser. *)
Inductive Event :=
| CallConnect                 (* the effect runs [connect()] *)
| CallDisconnect              (* [disconnect()] *)
| Opened (socket : nat)       (* [open] event of a socket *)
| Errored (socket : nat)      (* [error] event *)
| Closing (socket : nat)      (* the server starts the closing handshake *)
| Closed (socket : nat)       (* [close] event *)
| TimerFired (id : nat).      (* a scheduled timer expires *)

Definition set_socket (id : nat) (r : ReadyState) (h : Hook) : Hook :=
  {| sockets := <[id := r]> (sockets h); timers := timers h; wsRef := wsRef h;
     reconnectAttemptsRef := reconnectAttemptsRef h;
     reconnectTimeoutRef := reconnectTimeoutRef h;
     isConnected := isConnected h; lastError := lastError h |}.

Definition set_fired (id : nat) (d : Z) (h : Hook) : Hook :=
  {| sockets := sockets h;
     timers := <[id := {| delay := d; timer_state := Fired |}]> (timers h);
     wsRef := wsRef h;
     reconnectAttemptsRef := reconnectAttemptsRef h;
     reconnectTimeoutRef := reconnectTimeoutRef h;
     isConnected := isConnected h; lastError := lastError h |}.

(** One event; [None] when the browser cannot deliver it in this state
    (a socket opens only while connecting, fails and closes only before it
    is closed, a timer fires only while scheduled).  When the server starts the closing handshake
    of an open socket its [readyState] becomes [CLOSING]; no handler of
    the hook runs until the [close] event. *)
Definition step (o : Options) (ev : Event) (h : Hook) : option Hook :=
  match ev with
  | CallConnect => Some (connect o h)
  | CallDisconnect => Some (disconnect h)
  | Opened id =>
      match sockets h !! id with
      | Some CONNECTING => Some (onopen (set_socket id OPEN h))
      | _ => None
      end
  | Errored id =>
      match sockets h !! id with
      | Some CLOSED | None => None
      | Some _ => Some (onerror h)
      end
  | Closing id =>
      match sockets h !! id with
      | Some OPEN => Some (set_socket id CLOSING h)
      | _ => None
      end
  | Closed id =>
      match sockets h !! id with
      | Some CLOSED | None => None
      | Some _ => Some (onclose o (set_socket id CLOSED h))
      end
  | TimerFired id =>
      match timers h !! id with
      | Some {| delay := d; timer_state := Scheduled |} =>
          Some (ontimeout o (set_fired id d h))
      | _ => None
      end
  end.

Fixpoint run (o : Options) (evs : list Event) (h : Hook) : option Hook :=
  match evs with
  | [] => Some h
  | ev :: evs' =>
      match step o ev h with
      | Some h' => run o evs' h'
      | None => None
      end
  end.

(** The delays of the timers that are still waiting to fire. *)
Definition pending (h : Hook) : list Z :=
  omap (fun t => match timer_state t with
                 | Scheduled => Some (delay t)
                 | _ => None
                 end) (timers h).

End StreamClient.

(** ** Export: the CSV serializers of export.ts *)
Module Exporter.
Import Js.

Record BenchmarkResult := {
  symbol : string;
  cached_latency_us : Q;
  uncached_latency_us : Q;
  speedup_factor : Q;
  p95_latency_us : Q;
  p99_latency_us : Q;
  sample_count : Z;
  timestamp : string;
}.

Record MetricsSnapshot := {
  m_timestamp : string;
  cache_hits : Z;
  cache_misses : Z;
  stale_hits : Z;
  hit_rate_percent : Q;
  avg_latency_us : Q;
  m_p95_latency_us : Q;
  m_p99_latency_us : Q;
  refresh_errors : Z;
  cache_size : Z;
}.

Definition dquote : string := String (ascii_of_nat 34) EmptyString.

(** [`"${cell}"`] *)
Definition quoted (cell : string) : string := dquote +:+ cell +:+ dquote.

(** [[headers.join(","), ...rows.map(row => row.map(quoted).join(","))].join("\n")] *)
Definition csvContent (headers : list string) (rows : list (list string)) : string :=
  join (String (ascii_of_nat 10) EmptyString)
       (join "," headers :: map (fun row => join "," (map quoted row)) rows).

Definition benchmarkHeaders : list string :=
  [ "Symbol"; "Cached Latency (µs)"; "Uncached Latency (µs)"; "Speedup Factor";
    "P95 Latency (µs)"; "P99 Latency (µs)"; "Sample Count"; "Timestamp" ].

Definition benchmarkRow (result : BenchmarkResult) : list string :=
  [ symbol result;
    toFixed (cached_latency_us result) 3;
    toFixed (uncached_latency_us result) 3;
    toFixed (speedup_factor result) 0;
    toFixed (p95_latency_us result) 3;
    toFixed (p99_latency_us result) 3;
    show (sample_count result);
    timestamp result ].

Definition benchmarkToCSV (results : list BenchmarkResult) : string :=
  if Nat.eqb (length results) 0 then "No benchmark results to export"
  else csvContent benchmarkHeaders (map benchmarkRow results).

Definition metricsHeaders : list string :=
  [ "Timestamp"; "Cache Hits"; "Cache Misses"; "Stale Hits"; "Hit Rate (%)";
    "Avg Latency (µs)"; "P95 Latency (µs)"; "P99 Latency (µs)";
    "Refresh Errors"; "Cache Size" ].

Definition metricsRow (metric : MetricsSnapshot) : list string :=
  [ m_timestamp metric;
    show (cache_hits metric);
    show (cache_misses metric);
    show (stale_hits metric);
    toFixed (hit_rate_percent metric) 2;
    toFixed (avg_latency_us metric) 3;
    toFixed (m_p95_latency_us metric) 3;
    toFixed (m_p99_latency_us metric) 3;
    show (refresh_errors metric);
    show (cache_size metric) ].

Definition metricsToCSV (metrics : list MetricsSnapshot) : string :=
  if Nat.eqb (length metrics) 0 then "No metrics data to export"
  else csvContent metricsHeaders (map metricsRow metrics).

(** The [content] and [mimeType] that [exportBenchmarkResults(results, "csv")]
    and [exportMetricsHistory(metrics, "csv")] hand to [downloadFile]. *)
Definition exportBenchmarkCsv (results : list BenchmarkResult) : string * string :=
  (benchmarkToCSV results, "text/csv").

Definition exportMetricsCsv (metrics : list MetricsSnapshot) : string * string :=
  (metricsToCSV metrics, "text/csv").

End Exporter.

(** ** MetricsHistoryBuffer: the [onMessage] handler of the Observability page *)
Module Observability.
Import Js Exporter.

(** [data.data] of a stream message; a member that is missing (or zero)
    reads as [0] through [|| 0]. *)
Record StatsPayload := {
  p_cache_hits : option Z;
  p_cache_misses : option Z;
  p_stale_hits : option Z;
  p_hit_rate_percent : option Q;
  p_avg_latency_us : option Q;
  p_p95_latency_us : option Q;
  p_p99_latency_us : option Q;
  p_refresh_errors : option Z;
  p_cache_size : option Z;
}.

(** A parsed message: its [type] and its [data] ([None] when absent). *)
Record Message := {
  type : string;
  data : option StatsPayload;
}.

Definition capacity : nat := 100.

Definition snapshotOf (iso : string) (d : StatsPayload) : MetricsSnapshot :=
  {| m_timestamp := iso;
     cache_hits := default 0 (p_cache_hits d);
     cache_misses := default 0 (p_cache_misses d);
     stale_hits := default 0 (p_stale_hits d);
     hit_rate_percent := default 0%Q (p_hit_rate_percent d);
     avg_latency_us := default 0%Q (p_avg_latency_us d);
     m_p95_latency_us := default 0%Q (p_p95_latency_us d);
     m_p99_latency_us := default 0%Q (p_p99_latency_us d);
     refresh_errors := default 0 (p_refresh_errors d);
     cache_size := default 0 (p_cache_size d) |}.

(** [(prev) => [...prev.slice(-99), snapshot]] *)
Definition append (prev : list MetricsSnapshot) (snapshot : MetricsSnapshot)
    : list MetricsSnapshot :=
  slice (-99) prev ++ [snapshot].

(** [onMessage(data)] at time [iso], on the history; a message of another
    type is ignored, and one without [data] raises inside the handler
    before the history is touched. *)
Definition onMessage (iso : string) (msg : Message)
    (metricsHistory : list MetricsSnapshot) : list MetricsSnapshot :=
  if String.eqb (type msg) "stats" then
    match data msg with
    | Some d => append metricsHistory (snapshotOf iso d)
    | None => metricsHistory
    end
  else metricsHistory.

(** The history after a sequence of appends, starting from the empty
    initial state. *)
Definition appendAll (snapshots : list MetricsSnapshot) : list MetricsSnapshot :=
  fold_left append snapshots [].

End Observability.

(* ===================================================================== *)
(** * Part II: the vocabulary of the properties                           *)
(* ===================================================================== *)

(** ** StatsEngine *)
Section StatsEngineTerms.
Import Js StatsEngine.

(** The sum of a sample sequence, as a mathematical sum. *)
Definition total (l : list Q) : Q := fold_right Qplus 0%Q l.




End StatsEngineTerms.

(** ** MetricsHistoryBuffer *)
Section MetricsHistoryTerms.
Import Js Exporter Observability.

(** The last [k] elements of a sequence, in their order. *)
Definition newest {A} (k : nat) (l : list A) : list A :=
  drop (length l - k) l.

(** A run of 150 stream messages, numbered by their [cache_hits]. *)
Definition numbered (i : nat) : MetricsSnapshot :=
  {| m_timestamp := pretty i; cache_hits := Z.of_nat i; cache_misses := 0;
     stale_hits := 0; hit_rate_percent := 0%Q; avg_latency_us := 0%Q;
     m_p95_latency_us := 0%Q; m_p99_latency_us := 0%Q;
     refresh_errors := 0; cache_size := 0 |}.

End MetricsHistoryTerms.

(** ** StreamClient *)
Section StreamClientTerms.
Import StreamClient.

(** A timer whose delay is the backoff of an attempt number below the
    maximum. *)
Definition backoff_timer (o : Options) (t : Timer) : Prop :=
  exists a : nat, (a < maxReconnectAttempts o)%nat /\ delay t = backoffMs o a.

(** Every timer the hook has ever created is such a timer. *)
Definition timers_ok (o : Options) (h : Hook) : Prop :=
  Forall (backoff_timer o) (timers h).

(** The run in which the first connection and every reconnection fail. *)
Definition every_connection_fails : list Event :=
  [ CallConnect; Closed 0; TimerFired 0; Closed 1; TimerFired 1; Closed 2;
    TimerFired 2; Closed 3; TimerFired 3; Closed 4; TimerFired 4; Closed 5 ]%nat.

(** The events that the browser delivers, as opposed to calls made by the
    component. *)
Definition browser_event (ev : Event) : Prop :=
  match ev with
  | CallConnect | CallDisconnect => False
  | _ => True
  end.

(** A hook whose five reconnections have all failed. *)
Definition exhausted : Hook :=
  {| sockets := replicate 6 CLOSED; timers := []; wsRef := Some 5%nat;
     reconnectAttemptsRef := 5; reconnectTimeoutRef := Some 4%nat;
     isConnected := false; lastError := None |}.

(** The hook after its first connection has failed. *)
Definition first_failure : Hook :=
  {| sockets := [CLOSED];
     timers := [ {| delay := 3000; timer_state := Scheduled |} ];
     wsRef := Some 0%nat; reconnectAttemptsRef := 0;
     reconnectTimeoutRef := Some 0%nat;
     isConnected := false; lastError := None |}.

(** The channel opens, the component calls [disconnect()], and the browser
    delivers the [close] event of the socket that was closed. *)
Definition disconnect_then_close : list Event :=
  [ CallConnect; Opened 0; CallDisconnect; Closed 0 ]%nat.

End StreamClientTerms.

(** ** FallbackSynthesizer *)
Section FallbackTerms.
Import Js Api.

(** [Math.random()] returns numbers in [0, 1). *)
Definition unit_draws (rnd : nat -> Q) : Prop :=
  forall k, (0 <= rnd k)%Q /\ (rnd k < 1)%Q.

(** A quote made by [generateFallbackPriceData] for the symbol [k]. *)
Definition generated (k : string) (q : PriceData) : Prop :=
  exists iso rnd, unit_draws rnd /\ q = generateFallbackPriceData iso rnd k.

(** The complete fallback mapping: exactly the five symbols, each with a
    generated quote of its own. *)
Definition full_fallback (m : gmap string PriceData) : Prop :=
  dom m = list_to_set symbols /\
  forall k q, m !! k = Some q -> generated k q.

(** The cache is empty (before its first use) or complete. *)
Definition cache_ok (st : FallbackState) : Prop :=
  fallbackDataCache st = ∅ \/ full_fallback (fallbackDataCache st).

(** The module states the client can be in: the initial one, and those
    left by calls of [getFallbackData]. *)
Inductive reachable : FallbackState -> Prop :=
| reach_initial : reachable initial
| reach_call force env st :
    unit_draws (random env) -> reachable st ->
    reachable (getFallbackData force env st).1.

End FallbackTerms.

(** ** PriceFeedClient: [fetchAllPrices] *)
Section FetchAllPricesTerms.
Import Js Api.

(** The request succeeds: the endpoint answers with a success status and
    a body whose [prices] member maps every key to an object. *)
Definition succeeds (srv : Server (option BulkPayload)) : Prop :=
  exists at_ms status data entries,
    srv = Answers at_ms true status (Normal (Some data)) /\
    prices data = Keyed entries /\
    forall k e, entries !! k = Some e -> exists q, e = Quote q.

(** The result is the live mapping of the answer [srv]: its key set is
    that of the reported [prices], and each quote is the reported one with
    [latency_us] set to the batch latency. *)
Definition full_live (srv : Server (option BulkPayload))
    (result : gmap string PriceData) : Prop :=
  exists at_ms status data entries,
    srv = Answers at_ms true status (Normal (Some data)) /\
    prices data = Keyed entries /\
    dom result = dom entries /\
    forall k q, result !! k = Some q ->
      latency_us q = batch_latency_us data /\
      exists q0, entries !! k = Some (Quote q0) /\
                 q = set_latency_us (batch_latency_us data) q0.

(** Surroundings in which every draw is 0.5. *)
Definition calm : Env :=
  {| PROD := false; now := 5000; isoNow := "2026-01-01T00:00:00.000Z";
     random := fun _ => 0.5%Q |}.

End FetchAllPricesTerms.

(** ** PriceFeedClient: time-outs and statistics *)
Section RestTerms.
Import Js Api.

(** The statistics [fetchStats] makes up when the request fails. *)
Definition synthetic (c : CacheStats) : Prop :=
  0 <= cache_hits c < 10000 /\
  0 <= cache_misses c < 100 /\
  0 <= total_requests c < 10100.

(** What the endpoint reports in time: the [cache_stats] member ([None]
    inside when absent) of an answer that arrives within the 5000 ms of the
    abort signal with a success status and a body that is an object. *)
Definition answered (srv : Server (option (option CacheStats)))
    : option (option CacheStats) :=
  match srv with
  | Answers at_ms true _ (Normal (Some reported)) =>
      if at_ms <=? 5000 then Some reported else None
  | _ => None
  end.

(** Draws 0.5, 0.5, 0: 5000 hits, 50 misses, 0 requests. *)
Definition uneven : Env :=
  {| PROD := false; now := 5000; isoNow := "2026-01-01T00:00:00.000Z";
     random := fun k => match k with 2%nat => 0%Q | _ => 0.5%Q end |}.

End RestTerms.

(** ** FallbackSynthesizer: the generated price *)
Section FallbackPriceTerms.
Import Js Api.

(** For comparison with the code, the price as the specification words
    it: the base price with a perturbation drawn uniformly within plus or
    minus 1% of it, [r] being the draw in [0, 1). *)
Definition price_within_one_percent (base r : Q) : Q :=
  (base + base * 0.01 * ((r - 0.5) * 2))%Q.

End FallbackPriceTerms.

(** ** Home page: the live/fallback classification of the statistics *)
Module Home.
Import Api.

(** [const totalRequests = stats?.total_requests ?? 0;
     const isRealApi = totalRequests > 100;] *)
Definition isRealApi (stats : option CacheStats) : bool :=
  let totalRequests :=
    match stats with
    | Some s => total_requests s
    | None => 0
    end in
  totalRequests >? 100.

Record LatencyData := {
  time : string;
  cached : Q;
  uncached : Q;
}.

(** The updater given to [setLatencyData]: [timeStr] is the time of day,
    [cachedLatency] the [latency_us] of the first price, [r] the draw of
    [Math.random()]. *)
Definition pushLatency (timeStr : string) (cachedLatency r : Q)
    (prev : list LatencyData) : list LatencyData :=
  let uncachedLatency := (100 + r * 20)%Q in
  Js.slice (-19) prev
  ++ [ {| time := timeStr;
          cached := Js.round_fixed cachedLatency 2;
          uncached := Js.round_fixed uncachedLatency 1 |} ].

(** The 20 sample points that the page starts with are followed by one
    update per arrival of prices: the time of day, the latency of the
    first price and the draw. *)
Definition pushLatencyAll (updates : list (string * Q * Q))
    (latencyData : list LatencyData) : list LatencyData :=
  fold_left (fun prev u => pushLatency u.1.1 u.1.2 u.2 prev) updates latencyData.

End Home.

(** ** PriceFeedClient: [fetchPrice] *)
Section RestMoreTerms.
Import Js Api.

(** The request is answered in time with a success status and a body that
    parses. *)
Definition answered_in_time {B} (srv : Server B) (limit : Z) (body : B) : Prop :=
  exists at_ms status,
    srv = Answers at_ms true status (Normal body) /\ at_ms <= limit.

(** [Math.random()] returns binary64 numbers. *)
Definition binary64_draws (rnd : nat -> Q) : Prop :=
  forall k, (binary64 (rnd k) == rnd k)%Q.

(** Surroundings in which every draw is the largest binary64 number
    below 1. *)
Definition brim : Env :=
  {| PROD := false; now := 5000; isoNow := "2026-01-01T00:00:00.000Z";
     random := fun _ => (1 - pow2 (-53))%Q |}.

End RestMoreTerms.

(** ** The benchmark loops of api.ts *)
Module Benchmarks.
Import Js Api.

(** What one iteration meets: the surroundings of its request, the
    behaviour of the endpoint, and the two readings of
    [performance.now()].  The readings are binary64 numbers that are not
    negative, so their difference, once rounded, is in range. *)
Record Trial (B : Type) := {
  trial_env : Env;
  trial_server : Server B;
  trial_start : Q;
  trial_stop : Q;
}.
Arguments trial_env {B} t.
Arguments trial_server {B} t.
Arguments trial_start {B} t.
Arguments trial_stop {B} t.

(** The [for] loop of [benchmarkCachedLatency], from iteration [i], with
    [n] iterations to go. *)
Fixpoint cachedLoop (symbol : string) (trials : nat -> Trial (option PriceData))
    (n i : nat) (latencies : list Q) (st : FallbackState)
    : FallbackState * Promise (list Q) :=
  match n with
  | O => (st, Fulfilled latencies)
  | S n' =>
      let t := trials i in
      let start := trial_start t in
      match fetchPrice (trial_env t) symbol (trial_server t) st with
      | (st', Fulfilled _) =>
          let elapsed := binary64 (trial_stop t - start)%Q in
          cachedLoop symbol trials n' (S i) (latencies ++ [elapsed]) st'
      | (st', Pending) => (st', Pending)
      | (st', Rejected e) => (st', Rejected e)
      end
  end.

(** [benchmarkCachedLatency(symbol, iterations)] for a whole number of
    iterations. *)
Definition benchmarkCachedLatency (symbol : string) (iterations : nat)
    (trials : nat -> Trial (option PriceData)) (st : FallbackState)
    : FallbackState * Promise (list Q) :=
  cachedLoop symbol trials iterations 0 [] st.

Definition uncached_request (env : Env) (symbol : string) : Request :=
  {| url := API_BASE_URL env +:+ "/price/" +:+ toUpperCase symbol;
     signal := Some 5000 |}.

(** The [for] loop of [benchmarkUncachedLatency]; [slept] adds up the
    [setTimeout(resolve, 500)] pauses. *)
Fixpoint uncachedLoop {B} (symbol : string) (trials : nat -> Trial B)
    (iterations n i : nat) (latencies : list Q) (slept : Z)
    : Promise (list Q * Z) :=
  match n with
  | O => Fulfilled (latencies, slept)
  | S n' =>
      let t := trials i in
      let start := trial_start t in
      match fetch (uncached_request (trial_env t) symbol) (trial_server t) with
      | Pending => Pending
      | Fulfilled _ | Rejected _ =>
          let elapsed := binary64 (trial_stop t - start)%Q in
          let slept' := if (i <? iterations - 1)%nat then slept + 500 else slept in
          uncachedLoop symbol trials iterations n' (S i) (latencies ++ [elapsed]) slept'
      end
  end.

(** [benchmarkUncachedLatency(symbol, iterations)]: the samples, and the
    time spent in pauses between requests. *)
Definition benchmarkUncachedLatency {B} (symbol : string) (iterations : nat)
    (trials : nat -> Trial B) : Promise (list Q * Z) :=
  uncachedLoop symbol trials iterations iterations 0 [] 0.

End Benchmarks.

(** ** Benchmark page: [calculateDistribution] *)
Module BenchmarkPage.
Import Js.

Record Range := {
  range : string;
  range_min : Q;
  range_max : option Q;     (* [None] is [Infinity] *)
}.

Record Bucket := {
  bucket : Range;           (* [...r] *)
  count : nat;
  percentage : value;
}.

Definition ranges : list Range :=
  [ {| range := "0.0-0.5µs"; range_min := 0; range_max := Some 0.5%Q |};
    {| range := "0.5-1.0µs"; range_min := 0.5; range_max := Some 1.0%Q |};
    {| range := "1.0-5.0µs"; range_min := 1.0; range_max := Some 5.0%Q |};
    {| range := "5.0+µs"; range_min := 5.0; range_max := None |} ].

(** [l >= r.min && l < r.max] *)
Definition within (r : Range) (l : Q) : bool :=
  Qle_bool (range_min r) l
  && match range_max r with
     | Some m => negb (Qle_bool m l)
     | None => true
     end.

(** [(count / latencies.length) * 100]; [0 / 0] is [NaN]. *)
Definition percent (count len : nat) : value :=
  mul (div_by_length (Num (inject_Z (Z.of_nat count))) len) (Num 100).

Definition calculateDistribution (latencies : list Q) : list Bucket :=
  map (fun r =>
         let count := length (filter (fun l => within r l = true) latencies) in
         {| bucket := r; count := count;
            percentage := percent count (length latencies) |})
      ranges.

End BenchmarkPage.

(** ** The benchmark loops *)
Section BenchmarkTerms.
Import Benchmarks.

(** The time the i-th iteration measures: [performance.now() - start]. *)
Definition elapsed {B} (trials : nat -> Trial B) (i : nat) : Q :=
  Js.binary64 (trial_stop (trials i) - trial_start (trials i))%Q.

End BenchmarkTerms.

(** ** StreamClient: [send] *)
Module StreamSend.
Import StreamClient.


End StreamSend.

(** ** StreamClient: the states of a hook that is left alone *)
Section StreamChainTerms.
Import StreamClient.

Definition all_closed (ss : list ReadyState) : Prop :=
  Forall (fun r => r = CLOSED) ss.

Definition none_scheduled (ts : list Timer) : Prop :=
  Forall (fun t => timer_state t <> Scheduled) ts.

(** The current socket is connecting, open, or in a closing handshake
    that the server started; every earlier socket is closed, and no timer
    is waiting.  [isConnected] is true from the [open] event to the [close]
    event of the current socket. *)
Definition connected_phase (o : Options) (h : Hook) : Prop :=
  exists old r,
    sockets h = old ++ [r] /\ all_closed old /\
    (r = CONNECTING \/ r = OPEN \/ r = CLOSING) /\
    none_scheduled (timers h) /\ wsRef h = Some (length old) /\
    isConnected h = match r with OPEN | CLOSING => true | _ => false end /\
    (reconnectAttemptsRef h <= maxReconnectAttempts o)%nat.

(** Every socket is closed and exactly one timer is waiting: the last one
    created, which [reconnectTimeoutRef] names, with the backoff delay of
    the current attempt number. *)
Definition waiting_phase (o : Options) (h : Hook) : Prop :=
  exists old,
    all_closed (sockets h) /\
    timers h = old ++ [ {| delay := backoffMs o (reconnectAttemptsRef h);
                           timer_state := Scheduled |} ] /\
    none_scheduled old /\ reconnectTimeoutRef h = Some (length old) /\
    isConnected h = false /\
    (reconnectAttemptsRef h < maxReconnectAttempts o)%nat.

(** Every socket is closed and no timer is waiting. *)
Definition at_rest (o : Options) (h : Hook) : Prop :=
  all_closed (sockets h) /\ none_scheduled (timers h) /\ isConnected h = false /\
  (reconnectAttemptsRef h <= maxReconnectAttempts o)%nat.

Definition chain_state (o : Options) (h : Hook) : Prop :=
  connected_phase o h \/ waiting_phase o h \/ at_rest o h.


End StreamChainTerms.

(** ** MetricsPanel: the history of the panel *)
Module MetricsPanel.

Record HistoryPoint := {
  timestamp : string;
  hit_rate : Q;
  p95_latency : Q;
  p99_latency : Q;
}.

(** [(prev) => [...prev.slice(-19), point]] *)
Definition pushHistory (point : HistoryPoint) (prev : list HistoryPoint)
    : list HistoryPoint :=
  Js.slice (-19) prev ++ [point].

End MetricsPanel.

(** ** PriceChart: the price history and the selection of stocks *)
Module PriceChart.

(** The updater given to [setPriceHistory], for any kind of point. *)
Definition pushPoint {A} (maxDataPoints : Z) (newPoint : A) (prev : list A) : list A :=
  let updated := prev ++ [newPoint] in
  if Z.of_nat (length updated) >? maxDataPoints
  then Js.slice (- maxDataPoints) updated
  else updated.

(** The effect that feeds the history: nothing happens without prices or
    while the chart is paused. *)
Definition onPrices {A P} (prices : option P) (isPaused : bool)
    (maxDataPoints : Z) (newPoint : A) (priceHistory : list A) : list A :=
  match prices with
  | None => priceHistory
  | Some _ =>
      if isPaused then priceHistory
      else pushPoint maxDataPoints newPoint priceHistory
  end.

(** The updater of [toggleStock(symbol)]. *)
Definition toggleStock (symbol : string) (prev : gset string) : gset string :=
  if decide (symbol ∈ prev) then
    if (1 <? size prev)%nat then prev ∖ {[symbol]} else prev
  else prev ∪ {[symbol]}.

(** The initial selection. *)
Definition allStocks : gset string :=
  {[ "AAPL"; "MSFT"; "GOOGL"; "AMZN"; "TSLA" ]}.

End PriceChart.

(** ** Bounded histories *)
Section HistoryTerms.
Import Exporter Observability.

(** What the [onMessage] handler of the Observability page does with a
    run of messages, each with the time it arrives at. *)
Definition receiveAll (messages : list (string * Message)) : list MetricsSnapshot :=
  fold_left (fun history m => onMessage m.1 m.2 history) messages [].

(** The snapshot a message contributes, if it contributes one. *)
Definition accepted (m : string * Message) : option MetricsSnapshot :=
  if String.eqb (type m.2) "stats" then snapshotOf m.1 <$> data m.2 else None.

(** The point an update of the Home page adds. *)
Definition latencyPoint (u : string * Q * Q) : Home.LatencyData :=
  {| Home.time := u.1.1;
     Home.cached := Js.round_fixed u.1.2 2;
     Home.uncached := Js.round_fixed (100 + u.2 * 20)%Q 1 |}.

(** The history of the metrics panel after a run of fetched points. *)
Definition pushHistoryAll (points : list MetricsPanel.HistoryPoint)
    (history : list MetricsPanel.HistoryPoint) : list MetricsPanel.HistoryPoint :=
  fold_left (fun prev p => MetricsPanel.pushHistory p prev) points history.

(** The price history of the chart after a run of its effect, starting
    empty: each run has the prices (if any), the pause flag and the point
    it would add. *)
Definition chartHistory {A P} (maxDataPoints : Z)
    (runs : list (option P * bool * A)) : list A :=
  fold_left (fun prev e => PriceChart.onPrices e.1.1 e.1.2 maxDataPoints e.2 prev)
            runs [].

(** The point a run of the effect adds, if it adds one. *)
Definition plotted {A P} (e : option P * bool * A) : option A :=
  match e.1.1 with
  | Some _ => if e.1.2 then None else Some e.2
  | None => None
  end.

End HistoryTerms.

(** ** Export: the summaries of the JSON documents, and the file name *)
Module ExporterJson.
Import Js Exporter.











(** [str.split(sep)] for a separator of one character. *)
Fixpoint split (sep : Ascii.ascii) (str : string) : list string :=
  match str with
  | EmptyString => [EmptyString]
  | String c rest =>
      if Ascii.eqb c sep then EmptyString :: split sep rest
      else match split sep rest with
           | piece :: pieces => String c piece :: pieces
           | [] => [String c EmptyString]
           end
  end.

(** [str.replace(/[...]/g, "-")], the class of characters given as a test. *)
Fixpoint replaceAll (class : Ascii.ascii -> bool) (str : string) : string :=
  match str with
  | EmptyString => EmptyString
  | String c rest =>
      String (if class c then "-"%char else c) (replaceAll class rest)
  end.

Definition colon_or_dot (c : Ascii.ascii) : bool :=
  Ascii.eqb c ":"%char || Ascii.eqb c "."%char.

Definition colon (c : Ascii.ascii) : bool := Ascii.eqb c ":"%char.

Inductive Format := csv | json.

Definition extension (format : Format) : string :=
  match format with
  | csv => "csv"
  | json => "json"
  end.

(** [generateFilename(prefix, format)]; [iso1] and [iso2] are the results
    of the two calls of [new Date().toISOString()].  Reading a piece that
    [split] did not produce gives [undefined], on which the next method
    call raises. *)
Definition generateFilename (iso1 iso2 : string) (prefix : string) (format : Format)
    : completion string :=
  let timestamp :=
    match split "T" (replaceAll colon_or_dot iso1) !! 0%nat with
    | Some piece => piece
    | None => "undefined"
    end in
  match split "T" iso2 !! 1%nat with
  | None => Throw MalformedPayload
  | Some clock =>
      match split "." clock !! 0%nat with
      | None => Throw MalformedPayload
      | Some hms =>
          let time := replaceAll colon hms in
          Normal (prefix +:+ "_" +:+ timestamp +:+ "_" +:+ time +:+ "."
                  +:+ extension format)
      end
  end.

End ExporterJson.

(** ** Export: vocabulary *)
Section ExportJsonTerms.
Import ExporterJson.

(** The character [c] occurs in [str]. *)
Fixpoint occurs (c : Ascii.ascii) (str : string) : bool :=
  match str with
  | EmptyString => false
  | String c' rest => Ascii.eqb c' c || occurs c rest
  end.








End ExportJsonTerms.

(** ** Ticker: the items shown for a mapping of prices *)
Module Ticker.

Definition SYMBOLS : list string := ["AAPL"; "MSFT"; "GOOGL"; "AMZN"; "TSLA"].

Record TickerItem := {
  symbol : string;
  price : Q;
  change : Q;
  changePercent : Q;
  latency : Q;
}.

(** [a || b] for a number [a] that may be missing: [b] when [a] is
    [undefined] or 0. *)
Definition or_else (a : option Q) (b : Q) : Q :=
  match a with
  | Some x => if Qeq_bool x 0 then b else x
  | None => b
  end.

(** The item pushed for one symbol of [SYMBOLS] that has a quote. *)
Definition tickerItem (previousPrices : gmap string Q) (symbol : string)
    (priceData : Api.PriceData) : TickerItem :=
  let previousPrice := or_else (previousPrices !! symbol) (Api.price priceData) in
  let change := (Api.price priceData - previousPrice)%Q in
  let changePercent :=
    if Qlt_le_dec 0 previousPrice then (change / previousPrice * 100)%Q else 0%Q in
  {| symbol := symbol;
     price := Api.price priceData;
     change := change;
     changePercent := changePercent;
     latency := or_else (Some (Api.latency_us priceData)) 0 |}.

(** The [items] array that the effect builds. *)
Definition items (prices : gmap string Api.PriceData) (previousPrices : gmap string Q)
    : list TickerItem :=
  omap (fun symbol => tickerItem previousPrices symbol <$> prices !! symbol) SYMBOLS.

(** The effect that runs when [prices] changes, on the state
    [(tickerItems, previousPrices)]. *)
Definition onPrices (prices : option (gmap string Api.PriceData))
    (state : list TickerItem * gmap string Q) : list TickerItem * gmap string Q :=
  match prices with
  | None => state
  | Some prices =>
      let built := items prices state.2 in
      (if (0 <? length built)%nat then built else state.1,
       fold_left (fun prev item => <[symbol item := price item]> prev) built state.2)
  end.

End Ticker.

(* ===================================================================== *)
(** * Part III: properties                                                 *)
(* ===================================================================== *)

(** ** binary64 arithmetic *)
Section Binary64Facts.
Import Js.

Lemma round_even_cases x :
  round_even x = Qfloor x \/ round_even x = Qfloor x + 1.
Proof.
  unfold round_even. destruct (_ ?= _)%Q; auto. destruct (Z.even _); auto.
Qed.

Lemma round_even_near x :
  (Qabs (inject_Z (round_even x) - x) <= 1 # 2)%Q.
Proof.
  pose proof (Qfloor_le x) as Hlo. pose proof (Qlt_floor x) as Hhi.
  rewrite inject_Z_plus in Hhi. change (inject_Z 1) with 1%Q in Hhi.
  apply Qabs_Qle_condition. unfold round_even.
  destruct (_ ?= _)%Q eqn:E.
  - apply Qeq_alt in E. destruct (Z.even _);
      [|rewrite inject_Z_plus; change (inject_Z 1) with 1%Q]; split; lra.
  - apply Qlt_alt in E. split; lra.
  - apply Qgt_alt in E. rewrite inject_Z_plus. change (inject_Z 1) with 1%Q.
    split; lra.
Qed.

Lemma round_even_Z n : round_even (inject_Z n) = n.
Proof.
  unfold round_even. rewrite Qfloor_Z.
  destruct (_ ?= _)%Q eqn:E; auto.
  - apply Qeq_alt in E. lra.
  - apply Qgt_alt in E. lra.
Qed.

Lemma round_even_comp x y : (x == y)%Q -> round_even x = round_even y.
Proof.
  intros H. unfold round_even. rewrite (Qfloor_comp _ _ H).
  assert (E : (x - inject_Z (Qfloor y) ?= 1 # 2)%Q
              = (y - inject_Z (Qfloor y) ?= 1 # 2)%Q).
  { apply Qcompare_comp; [rewrite H|]; reflexivity. }
  rewrite E. reflexivity.
Qed.

Lemma round_even_mono x y : (x <= y)%Q -> round_even x <= round_even y.
Proof.
  intros H. pose proof (Qfloor_resp_le _ _ H) as Hf.
  destruct (Z.eq_dec (Qfloor x) (Qfloor y)) as [E|N].
  - unfold round_even. rewrite E.
    destruct (x - _ ?= _)%Q eqn:Ex; destruct (y - _ ?= _)%Q eqn:Ey;
      try (destruct (Z.even _)); try lia;
      repeat match goal with
      | H : (_ ?= _)%Q = Eq |- _ => apply Qeq_alt in H
      | H : (_ ?= _)%Q = Lt |- _ => apply Qlt_alt in H
      | H : (_ ?= _)%Q = Gt |- _ => apply Qgt_alt in H
      end; lra.
  - destruct (round_even_cases x), (round_even_cases y); lia.
Qed.

Lemma pow2_pos e : (0 < pow2 e)%Q.
Proof. apply Qpower_0_lt. reflexivity. Qed.

Lemma pow2_plus a b : (pow2 (a + b) == pow2 a * pow2 b)%Q.
Proof. apply Qpower_plus. discriminate. Qed.

Lemma pow2_le a b : a <= b -> (pow2 a <= pow2 b)%Q.
Proof. intros. apply Qpower_le_compat_l; [lia|discriminate]. Qed.

Lemma pow2_lt a b : a < b -> (pow2 a < pow2 b)%Q.
Proof. intros. apply Qpower_lt_compat_l; [lia|reflexivity]. Qed.

Lemma pow2_Z n : 0 <= n -> (pow2 n == inject_Z (2 ^ n))%Q.
Proof. intros. unfold pow2. rewrite Zpower_Qpower by lia. reflexivity. Qed.

Lemma pow2_S a : (pow2 (a + 1) == 2 * pow2 a)%Q.
Proof. rewrite pow2_plus. change (pow2 1) with 2%Q. ring. Qed.

Lemma ilog2_spec x :
  (0 < x)%Q -> (pow2 (ilog2 x) <= x /\ x < pow2 (ilog2 x + 1))%Q.
Proof.
  intros Hx. destruct x as [n d]. unfold ilog2. cbn [Qnum Qden].
  assert (Hn : 0 < n) by (unfold Qlt in Hx; cbn in Hx; lia).
  pose proof (Z.log2_spec n Hn) as [Hn1 Hn2].
  pose proof (Z.log2_spec (Zpos d) eq_refl) as [Hd1 Hd2].
  pose proof (Z.log2_nonneg n) as Ha. pose proof (Z.log2_nonneg (Zpos d)) as Hb.
  set (a := Z.log2 n) in *. set (b := Z.log2 (Zpos d)) in *.
  replace (Z.succ a) with (a + 1) in Hn2 by lia.
  replace (Z.succ b) with (b + 1) in Hd2 by lia.
  assert (Hq : ((n # d) * inject_Z (Zpos d) == inject_Z n)%Q).
  { rewrite Qmake_Qdiv. field. discriminate. }
  rewrite Zle_Qle in Hn1, Hd1. rewrite Zlt_Qlt in Hn2, Hd2.
  rewrite <- pow2_Z in Hn1, Hn2, Hd1, Hd2 by lia.
  set (x := (n # d)%Q) in *.
  set (N := inject_Z n) in *. set (D := inject_Z (Zpos d)) in *.
  assert (Hup : (x < pow2 (a - b + 1))%Q).
  { pose proof (pow2_plus (a - b + 1) b) as E.
    replace (a - b + 1 + b) with (a + 1) in E by lia.
    pose proof (pow2_pos (a - b + 1)). pose proof (pow2_pos b).
    nra. }
  assert (Hlow : (pow2 (a - b - 1) < x)%Q).
  { pose proof (pow2_plus (a - b - 1) (b + 1)) as E.
    replace (a - b - 1 + (b + 1)) with a in E by lia.
    pose proof (pow2_pos (a - b - 1)). pose proof (pow2_pos (b + 1)).
    pose proof (pow2_pos b). nra. }
  destruct (Qle_bool _ _) eqn:E.
  - apply Qle_bool_iff in E. split; auto.
  - assert (E' : ~ (pow2 (a - b) <= x)%Q)
      by (rewrite <- Qle_bool_iff, E; discriminate).
    apply Qnot_le_lt in E'. replace (a - b - 1 + 1) with (a - b) by lia.
    split; auto. apply Qlt_le_weak; auto.
Qed.

Lemma ilog2_unique x k :
  (pow2 k <= x)%Q -> (x < pow2 (k + 1))%Q -> ilog2 x = k.
Proof.
  intros H1 H2.
  assert (Hx : (0 < x)%Q) by (pose proof (pow2_pos k); lra).
  destruct (ilog2_spec x Hx) as [H3 H4].
  destruct (Z.lt_trichotomy (ilog2 x) k) as [L|[E|L]]; auto; exfalso.
  - assert (Hle : (pow2 (ilog2 x + 1) <= pow2 k)%Q) by (apply pow2_le; lia). lra.
  - assert (Hle : (pow2 (k + 1) <= pow2 (ilog2 x))%Q) by (apply pow2_le; lia). lra.
Qed.

Lemma ilog2_comp x y : (0 < x)%Q -> (x == y)%Q -> ilog2 x = ilog2 y.
Proof.
  intros Hx E. symmetry. destruct (ilog2_spec x Hx).
  apply ilog2_unique; rewrite <- E; auto.
Qed.

Lemma ilog2_mono x y : (0 < x)%Q -> (x <= y)%Q -> ilog2 x <= ilog2 y.
Proof.
  intros Hx Hxy. assert (Hy : (0 < y)%Q) by lra.
  destruct (ilog2_spec x Hx), (ilog2_spec y Hy).
  destruct (Z.le_gt_cases (ilog2 x) (ilog2 y)); auto. exfalso.
  assert (Hle : (pow2 (ilog2 y + 1) <= pow2 (ilog2 x))%Q) by (apply pow2_le; lia).
  lra.
Qed.

Lemma Qabs_gt0 x : ~ (x == 0)%Q -> (0 < Qabs x)%Q.
Proof.
  intros Hx. apply Qabs_case; intros; destruct (Qeq_dec x 0); try tauto; lra.
Qed.

Lemma exponent_zero x : (x == 0)%Q -> exponent x = -1074.
Proof. intros H. unfold exponent. apply Qeq_bool_iff in H. rewrite H. auto. Qed.

Lemma exponent_nonzero x :
  ~ (x == 0)%Q -> exponent x = Z.max (-1074) (ilog2 (Qabs x) - 52).
Proof.
  intros H. unfold exponent. destruct (Qeq_bool x 0) eqn:E; auto.
  apply Qeq_bool_iff in E. tauto.
Qed.

Lemma exponent_min x : -1074 <= exponent x.
Proof. unfold exponent. destruct (Qeq_bool x 0); lia. Qed.

Lemma exponent_comp x y : (x == y)%Q -> exponent x = exponent y.
Proof.
  intros E. destruct (Qeq_dec x 0) as [Z|N].
  - rewrite !exponent_zero; auto. rewrite <- E; auto.
  - rewrite !exponent_nonzero; auto.
    + rewrite (ilog2_comp (Qabs x) (Qabs y)); auto using Qabs_gt0.
      rewrite E. reflexivity.
    + rewrite <- E. auto.
Qed.

(** The magnitude of [x] in units of its last place. *)
Lemma exponent_upper x : (Qabs x < pow2 (exponent x + 53))%Q.
Proof.
  destruct (Qeq_dec x 0) as [Z|N].
  - assert (E : (Qabs x == 0)%Q) by (rewrite Z; reflexivity).
    rewrite E. apply pow2_pos.
  - rewrite exponent_nonzero by auto.
    destruct (ilog2_spec _ (Qabs_gt0 _ N)) as [_ H].
    eapply Qlt_le_trans; [exact H|]. apply pow2_le. lia.
Qed.

Lemma exponent_lower x :
  -1074 < exponent x -> (pow2 (exponent x + 52) <= Qabs x)%Q.
Proof.
  intros He. destruct (Qeq_dec x 0) as [Z|N].
  - rewrite exponent_zero in He by auto. lia.
  - rewrite exponent_nonzero in * by auto.
    destruct (ilog2_spec _ (Qabs_gt0 _ N)) as [H _].
    eapply Qle_trans; [|exact H]. apply pow2_le. lia.
Qed.

Lemma exponent_mono x y :
  (Qabs x <= Qabs y)%Q -> exponent x <= exponent y.
Proof.
  intros H. destruct (Qeq_dec x 0) as [Z|N].
  - rewrite (exponent_zero x) by auto. apply exponent_min.
  - assert (Ny : ~ (y == 0)%Q).
    { intros E. pose proof (Qabs_gt0 _ N). rewrite E in H. 
      change (Qabs 0) with 0%Q in H. lra. }
    rewrite !exponent_nonzero by auto.
    pose proof (ilog2_mono _ _ (Qabs_gt0 _ N) H). lia.
Qed.

Lemma binary64_comp x y : (x == y)%Q -> (binary64 x == binary64 y)%Q.
Proof.
  intros E. unfold binary64. rewrite (exponent_comp _ _ E).
  rewrite (round_even_comp (x / pow2 (exponent y)) (y / pow2 (exponent y))).
  - reflexivity.
  - rewrite E. reflexivity.
Qed.

(** The scaled significand. *)
Lemma scaled_abs x :
  (Qabs (x / pow2 (exponent x)) == Qabs x / pow2 (exponent x))%Q.
Proof.
  unfold Qdiv. rewrite Qabs_Qmult. rewrite (Qabs_pos (/ _)); [reflexivity|].
  apply Qlt_le_weak, Qinv_lt_0_compat, pow2_pos.
Qed.

Lemma binary64_error x :
  (Qabs (binary64 x - x) <= (1 # 2) * pow2 (exponent x))%Q.
Proof.
  unfold binary64. set (e := exponent x). pose proof (pow2_pos e) as He.
  pose proof (round_even_near (x / pow2 e)) as H.
  set (m := inject_Z (round_even (x / pow2 e))) in *.
  assert (E : (m * pow2 e - x == (m - x / pow2 e) * pow2 e)%Q)
    by (field; lra).
  rewrite E, Qabs_Qmult, (Qabs_pos (pow2 e)) by lra.
  apply Qmult_le_compat_r; lra.
Qed.


Lemma binary64_normal x :
  (pow2 (-1022) <= Qabs x)%Q ->
  (Qabs (binary64 x - x) <= pow2 (-53) * Qabs x)%Q.
Proof.
  intros Hn. pose proof (binary64_error x) as H.
  assert (Nz : ~ (x == 0)%Q).
  { intros E. pose proof (pow2_pos (-1022)). rewrite E in Hn.
    change (Qabs 0) with 0%Q in Hn. lra. }
  assert (L : (pow2 (exponent x + 52) <= Qabs x)%Q).
  { destruct (Z.eq_dec (exponent x) (-1074)) as [E|N].
    - rewrite E. exact Hn.
    - pose proof (exponent_min x). apply exponent_lower. lia. }
  pose proof (pow2_plus (exponent x + 52) (-53)) as E1.
  pose proof (pow2_S (exponent x + 52 + -53)) as E2.
  replace (exponent x + 52 + -53 + 1) with (exponent x) in E2 by lia.
  pose proof (pow2_pos (-53)).
  assert (pow2 (-53) * pow2 (exponent x + 52) <= pow2 (-53) * Qabs x)%Q
    by (apply Qmult_le_l; auto).
  lra.
Qed.

Lemma binary64_0 : (binary64 0 == 0)%Q.
Proof. reflexivity. Qed.

(** The rounding at work: [0.1 + 0.2] is [0.30000000000000004], one unit in
    the last place above [0.3]; a number halfway between two subnormal
    numbers goes to the even one; the largest number is finite and
    [2^1024] is not. *)
Lemma binary64_examples :
  (binary64 (binary64 0.1 + binary64 0.2) == binary64 0.3 + pow2 (-54))%Q
  /\ (binary64 (3 * pow2 (-1075)) == 2 * pow2 (-1074))%Q
  /\ (binary64 (5 * pow2 (-1075)) == 2 * pow2 (-1074))%Q
  /\ number (pow2 1024 - pow2 971) = Num (binary64 (pow2 1024 - pow2 971))
  /\ number (pow2 1024 - pow2 970) = Infinity false
  /\ number (- pow2 1024) = Infinity true.
Proof.
  split; [apply Qeq_bool_iff; vm_compute; reflexivity |].
  split; [apply Qeq_bool_iff; vm_compute; reflexivity |].
  split; [apply Qeq_bool_iff; vm_compute; reflexivity |].
  split; [vm_compute; reflexivity |]. split; vm_compute; reflexivity.
Qed.

Lemma binary64_mono x y :
  (0 <= x)%Q -> (x <= y)%Q -> (binary64 x <= binary64 y)%Q.
Proof.
  intros Hx Hxy. assert (Hy : (0 <= y)%Q) by lra.
  assert (Hm : exponent x <= exponent y)
    by (apply exponent_mono; rewrite !Qabs_pos; auto).
  pose proof (pow2_pos (exponent x)) as Px.
  pose proof (pow2_pos (exponent y)) as Py.
  destruct (Z.eq_dec (exponent x) (exponent y)) as [E|N].
  - unfold binary64. rewrite E. apply Qmult_le_compat_r; [|lra].
    rewrite <- Zle_Qle. apply round_even_mono.
    apply Qmult_le_compat_r; auto. apply Qlt_le_weak, Qinv_lt_0_compat; auto.
  - pose proof (exponent_min x).
    pose proof (exponent_lower y ltac:(lia)) as L.
    pose proof (exponent_upper x) as U. rewrite Qabs_pos in L, U by auto.
    apply Qle_trans with (pow2 (exponent y + 52)).
    + apply Qle_trans with (pow2 (exponent x + 53)); [|apply pow2_le; lia].
      rewrite pow2_plus, Qmult_comm. unfold binary64.
      apply Qmult_le_compat_r; [|lra].
      rewrite (pow2_Z 53) by lia. rewrite <- Zle_Qle.
      rewrite <- (round_even_Z (2 ^ 53)). apply round_even_mono.
      rewrite <- (pow2_Z 53) by lia.
      apply Qle_shift_div_r; auto.
      rewrite pow2_plus in U. lra.
    + rewrite pow2_plus, Qmult_comm. unfold binary64.
      apply Qmult_le_compat_r; [|lra].
      rewrite (pow2_Z 52) by lia. rewrite <- Zle_Qle.
      rewrite <- (round_even_Z (2 ^ 52)). apply round_even_mono.
      rewrite <- (pow2_Z 52) by lia.
      apply Qle_shift_div_l; auto.
      rewrite pow2_plus in L. lra.
Qed.

Lemma binary64_nonneg x : (0 <= x)%Q -> (0 <= binary64 x)%Q.
Proof. intros H. rewrite <- binary64_0. apply binary64_mono; lra. Qed.

Lemma number_finite x :
  (Qabs (binary64 x) < pow2 1024)%Q -> number x = Num (binary64 x).
Proof.
  intros H. unfold number. destruct (Qle_bool _ _) eqn:E; auto.
  apply Qle_bool_iff in E. lra.
Qed.









(** A binary64 number below 1 is at most [1 - 2^-53]. *)
Lemma double_below_one r :
  (binary64 r == r)%Q -> (r < 1)%Q -> (r <= 1 - pow2 (-53))%Q.
Proof.
  intros Hd H1.
  assert (Hu : (pow2 (-53) <= 1 # 2)%Q) by (apply (pow2_le (-53) (-1)); lia).
  destruct (Qlt_le_dec r (1 # 2)) as [Hs | Hh]; [lra |].
  assert (Hi : ilog2 r = -1) by (apply ilog2_unique; [exact Hh | exact H1]).
  assert (He : exponent r = -53).
  { rewrite exponent_nonzero by lra.
    rewrite (ilog2_comp (Qabs r) r), Hi; [reflexivity | | apply Qabs_pos; lra].
    rewrite Qabs_pos; lra. }
  unfold binary64 in Hd. rewrite He in Hd.
  set (m := round_even (r / pow2 (-53))) in *.
  assert (E : (pow2 53 * pow2 (-53) == 1)%Q) by (rewrite <- pow2_plus; reflexivity).
  pose proof (pow2_pos (-53)) as Hp.
  assert (Hm : m < 2 ^ 53).
  { rewrite Zlt_Qlt, <- (pow2_Z 53) by lia.
    apply (Qmult_lt_r _ _ (pow2 (-53))); [exact Hp |]. rewrite Hd, E. exact H1. }
  assert (Hm' : (inject_Z m <= pow2 53 - 1)%Q).
  { rewrite (pow2_Z 53) by lia. change 1%Q with (inject_Z 1).
    unfold Qminus. rewrite <- inject_Z_opp, <- inject_Z_plus, <- Zle_Qle. lia. }
  assert (Hfin : (inject_Z m * pow2 (-53) <= (pow2 53 - 1) * pow2 (-53))%Q)
    by (apply Qmult_le_compat_r; lra).
  rewrite <- Hd. lra.
Qed.

End Binary64Facts.

(** ** StatsEngine *)
Section StatsEngineFacts.
Import Js StatsEngine.


















(** C9 (as amended).  Applied to an empty sample sequence, [calculateStats]
    does not fail: it returns a record whose [min], [max], [median], [p95]
    and [p99] are [undefined] and whose [mean] is [NaN]; and it raises no
    error on any input. *)
Theorem calculateStats_empty_returns :
  calculateStats []
  = Normal {| min := Undefined; max := Undefined; mean := NaN;
              median := Undefined; p95 := Undefined; p99 := Undefined |}
  /\ forall latencies e, calculateStats latencies <> Throw e.
Proof. split; [reflexivity | discriminate]. Qed.

(** C9 (as stated) fails: on the empty sequence no [InvalidArgument] error
    is raised. *)
Lemma calculateStats_empty_not_InvalidArgument :
  calculateStats [] <> Throw InvalidArgument.
Proof. discriminate. Qed.

End StatsEngineFacts.

(** ** MetricsHistoryBuffer *)
Section MetricsHistoryFacts.
Import Js Exporter Observability.

Lemma slice_last {A} (l : list A) : slice (-99) l = newest 99 l.
Proof.
  unfold slice, newest. simpl. f_equal. lia.
Qed.

Lemma append_newest (prev : list MetricsSnapshot) snapshot :
  append (newest capacity prev) snapshot = newest capacity (prev ++ [snapshot]).
Proof.
  unfold append, capacity. rewrite slice_last. unfold newest.
  rewrite drop_drop, length_drop, length_app. simpl.
  rewrite drop_app_le by lia. f_equal. f_equal. lia.
Qed.

Lemma appendAll_newest snapshots : appendAll snapshots = newest capacity snapshots.
Proof.
  unfold appendAll.
  induction snapshots as [| x xs IH] using rev_ind; [reflexivity |].
  rewrite fold_left_app. simpl. rewrite IH. apply append_newest.
Qed.

(** C2.  After any sequence of appends the history holds at most 100
    snapshots, and they are the most recently appended ones in insertion
    order; one append puts the new snapshot last and drops only from the
    front; after 150 appends the history has exactly 100 snapshots and its
    first is the 51st appended. *)
Theorem metricsHistory_bounded_fifo :
  (forall snapshots : list MetricsSnapshot,
      (length (appendAll snapshots) <= 100)%nat /\
      appendAll snapshots = drop (length snapshots - 100) snapshots)
  /\ (forall (prev : list MetricsSnapshot) snapshot,
        append prev snapshot = drop (length prev - 99) prev ++ [snapshot])
  /\ (forall snapshots : list MetricsSnapshot,
        length snapshots = 150%nat ->
        length (appendAll snapshots) = 100%nat /\
        appendAll snapshots !! 0%nat = snapshots !! 50%nat).
Proof.
  split; [| split].
  - intros snapshots. rewrite appendAll_newest. unfold newest, capacity.
    split; [rewrite length_drop; lia | reflexivity].
  - intros prev snapshot. unfold append. now rewrite slice_last.
  - intros snapshots Hlen. rewrite appendAll_newest. unfold newest, capacity.
    rewrite length_drop, lookup_drop, Hlen. split; [lia | f_equal].
Qed.

Lemma metricsHistory_bounded_fifo_witness :
  length (numbered <$> seq 1 150) = 150%nat /\
  length (appendAll (numbered <$> seq 1 150)) = 100%nat /\
  appendAll (numbered <$> seq 1 150) !! 0%nat = (numbered <$> seq 1 150) !! 50%nat.
Proof.
  split; [reflexivity |].
  apply (proj2 (proj2 metricsHistory_bounded_fifo) (numbered <$> seq 1 150)).
  reflexivity.
Defined.

End MetricsHistoryFacts.

(** ** StreamClient *)
Section StreamClientFacts.
Import StreamClient.

Lemma backoff_timer_state o d s s' :
  backoff_timer o {| delay := d; timer_state := s |} ->
  backoff_timer o {| delay := d; timer_state := s' |}.
Proof. intros (a & Ha & Hd). now exists a. Qed.

Lemma timers_ok_update o (ts : list Timer) id d s s' :
  Forall (backoff_timer o) ts ->
  ts !! id = Some {| delay := d; timer_state := s |} ->
  Forall (backoff_timer o) (<[id := {| delay := d; timer_state := s' |}]> ts).
Proof.
  intros Hts Hid. apply Forall_insert; [exact Hts |].
  eapply backoff_timer_state, (Forall_lookup_1 _ _ _ _ Hts Hid).
Qed.

Lemma connect_timers o h : timers (connect o h) = timers h.
Proof. unfold connect. now destruct (ctor_error o). Qed.

Lemma clearTimeout_ok o id ts :
  Forall (backoff_timer o) ts -> Forall (backoff_timer o) (clearTimeout id ts).
Proof.
  intros Hts. unfold clearTimeout.
  destruct (ts !! id) as [[d []] |] eqn:E; try exact Hts.
  eapply timers_ok_update; eassumption.
Qed.

Lemma onclose_ok o h : timers_ok o h -> timers_ok o (onclose o h).
Proof.
  unfold timers_ok, onclose. intros Hh.
  destruct (Nat.ltb_spec (reconnectAttemptsRef h) (maxReconnectAttempts o));
    simpl; [| exact Hh].
  apply Forall_app. split; [exact Hh |].
  constructor; [| constructor]. now exists (reconnectAttemptsRef h).
Qed.

Lemma step_ok o ev h h' : step o ev h = Some h' -> timers_ok o h -> timers_ok o h'.
Proof.
  unfold timers_ok. destruct ev as [| | id | id | id | id | id]; simpl;
    intros Hstep Hh.
  - injection Hstep as <-. now rewrite connect_timers.
  - injection Hstep as <-. simpl.
    destruct (reconnectTimeoutRef h); [now apply clearTimeout_ok | exact Hh].
  - destruct (sockets h !! id) as [[] |]; try discriminate.
    injection Hstep as <-. exact Hh.
  - destruct (sockets h !! id) as [[] |]; try discriminate;
      injection Hstep as <-; exact Hh.
  - destruct (sockets h !! id) as [[] |]; try discriminate.
    injection Hstep as <-. exact Hh.
  - destruct (sockets h !! id) as [[] |]; try discriminate;
      injection Hstep as <-; now apply onclose_ok.
  - destruct (timers h !! id) as [[d []] |] eqn:E; try discriminate.
    injection Hstep as <-. unfold ontimeout. rewrite connect_timers. simpl.
    eapply timers_ok_update; eassumption.
Qed.

Lemma run_ok o evs : forall h h',
  run o evs h = Some h' -> timers_ok o h -> timers_ok o h'.
Proof.
  induction evs as [| ev evs IH]; simpl; intros h h' Hrun Hh.
  - now injection Hrun as <-.
  - destruct (step o ev h) as [h1 |] eqn:E; [| discriminate].
    eapply IH; [exact Hrun |]. eapply step_ok; eassumption.
Qed.

(** C4.  With the default base interval 3000 ms and maximum 5, a close at
    attempt number a < 5 schedules one reconnection after 3000 * 2^a ms, so
    the delays for attempts 0..4 are 3000, 6000, 12000, 24000, 48000; a
    close at attempt number 5 or more schedules nothing, and no run of the
    hook ever holds a timer for another delay; when every connection
    fails, exactly these five reconnections happen and then the hook is
    at rest; an open resets the attempt counter to 0. *)
Theorem reconnect_backoff_schedule :
  map (backoffMs defaults) (seq 0 5) = [3000; 6000; 12000; 24000; 48000]
  /\ (forall h : Hook,
        (reconnectAttemptsRef h < 5)%nat ->
        timers (onclose defaults h)
        = timers h ++ [ {| delay := 3000 * 2 ^ Z.of_nat (reconnectAttemptsRef h);
                           timer_state := Scheduled |} ])
  /\ (forall h : Hook,
        (5 <= reconnectAttemptsRef h)%nat ->
        timers (onclose defaults h) = timers h /\
        lastError (onclose defaults h) = Some "Max reconnection attempts reached")
  /\ (forall (evs : list Event) (h : Hook) (t : Timer),
        run defaults evs mounted = Some h -> t ∈ timers h ->
        delay t ∈ [3000; 6000; 12000; 24000; 48000])
  /\ (exists h : Hook,
        run defaults every_connection_fails mounted = Some h /\
        map delay (timers h) = [3000; 6000; 12000; 24000; 48000] /\
        pending h = [] /\
        reconnectAttemptsRef h = 5%nat /\
        forall ev, browser_event ev -> step defaults ev h = None)
  /\ (forall h : Hook, reconnectAttemptsRef (onopen h) = 0%nat).
Proof.
  split; [reflexivity |]. split; [| split; [| split; [| split]]].
  - intros h Hlt. unfold onclose. simpl.
    destruct (Nat.ltb_spec (reconnectAttemptsRef h) 5); [reflexivity | lia].
  - intros h Hge. unfold onclose. simpl.
    destruct (Nat.ltb_spec (reconnectAttemptsRef h) 5); [lia | now split].
  - intros evs h t Hrun Ht.
    assert (Hok : timers_ok defaults h).
    { eapply run_ok; [exact Hrun | constructor]. }
    destruct (proj1 (Forall_forall _ _) Hok t Ht) as (a & Ha & ->).
    simpl in Ha. apply list_elem_of_In.
    do 5 (destruct a as [| a]; [vm_compute; auto 6 |]). lia.
  - eexists. split; [vm_compute; reflexivity |]. repeat split.
    intros ev Hev. destruct ev as [| | id | id | id | id | id];
      try contradiction;
      do 6 (destruct id as [| id]; [reflexivity |]); reflexivity.
  - reflexivity.
Qed.

Lemma reconnect_backoff_schedule_witness :
  ((reconnectAttemptsRef (connect defaults mounted) < 5)%nat /\
   timers (onclose defaults (connect defaults mounted))
   = [ {| delay := 3000; timer_state := Scheduled |} ])
  /\ ((5 <= reconnectAttemptsRef exhausted)%nat /\
      timers (onclose defaults exhausted) = [] /\
      lastError (onclose defaults exhausted)
      = Some "Max reconnection attempts reached")
  /\ (run defaults [CallConnect; Closed 0%nat] mounted = Some first_failure /\
      {| delay := 3000; timer_state := Scheduled |} ∈ timers first_failure /\
      3000 ∈ [3000; 6000; 12000; 24000; 48000]).
Proof.
  destruct reconnect_backoff_schedule as (_ & Hlt & Hge & Hrun & _).
  split; [| split].
  - split; [simpl; lia |].
    apply (Hlt (connect defaults mounted)). simpl; lia.
  - split; [simpl; lia |]. apply (Hge exhausted). simpl; lia.
  - split; [reflexivity |]. split; [apply list_elem_of_here |].
    apply (Hrun [CallConnect; Closed 0%nat] first_failure
                {| delay := 3000; timer_state := Scheduled |});
      [reflexivity | apply list_elem_of_here].
Defined.

(** C5 fails on the code.  After [disconnect()] on an open channel, the
    [close] event of the socket it closed runs [ws.onclose], which
    schedules a reconnection after 3000 ms; when that timer expires a new
    socket is created.  ([disconnect()] itself leaves no timer pending and
    the socket closing.) *)
Theorem disconnect_reconnects :
  (exists h, run defaults [CallConnect; Opened 0; CallDisconnect]%nat mounted = Some h /\
             pending h = [] /\ sockets h = [CLOSING] /\ wsRef h = None)
  /\ (exists h, run defaults disconnect_then_close mounted = Some h /\
                pending h = [3000])
  /\ (exists h, run defaults (disconnect_then_close ++ [TimerFired 0%nat]) mounted = Some h /\
                sockets h = [CLOSED; CONNECTING] /\ wsRef h = Some 1%nat).
Proof.
  split; [| split]; eexists; (split; [vm_compute; reflexivity |]); repeat split.
Qed.

End StreamClientFacts.

(** ** FallbackSynthesizer *)
Section FallbackFacts.
Import Js Api.

Lemma regenerate_inserts env :
  let g i s := generateFallbackPriceData (isoNow env)
                 (fun k => random env (4 * i + k)%nat) s in
  regenerate env
  = <["TSLA" := g 4%nat "TSLA"]> (<["AMZN" := g 3%nat "AMZN"]>
      (<["GOOGL" := g 2%nat "GOOGL"]> (<["MSFT" := g 1%nat "MSFT"]>
        (<["AAPL" := g 0%nat "AAPL"]> ∅)))).
Proof. reflexivity. Qed.

Lemma regenerate_full env : unit_draws (random env) -> full_fallback (regenerate env).
Proof.
  intros Hrnd. rewrite regenerate_inserts. cbv zeta. split.
  - rewrite !dom_insert_L, dom_empty_L. unfold symbols.
    cbn [list_to_set foldr]. set_solver.
  - intros k q H.
    repeat (apply lookup_insert_Some in H;
            destruct H as [[<- <-] | [_ H]];
            [eexists _, _; split; [| reflexivity]; intros i; apply Hrnd |]).
    rewrite lookup_empty in H. discriminate.
Qed.

Lemma getFallbackData_full force env st :
  unit_draws (random env) -> cache_ok st ->
  full_fallback (getFallbackData force env st).2 /\
  fallbackDataCache (getFallbackData force env st).1
  = (getFallbackData force env st).2.
Proof.
  intros Hrnd Hst. unfold getFallbackData.
  destruct (force || bool_decide (now env - lastFallbackUpdate st > cacheExpiry)
            || bool_decide (size (fallbackDataCache st) = 0%nat)) eqn:E; simpl.
  - split; [now apply regenerate_full | reflexivity].
  - split; [| reflexivity].
    apply orb_false_elim in E as [_ E]. apply bool_decide_eq_false in E.
    destruct Hst as [Hempty | Hfull]; [| exact Hfull].
    rewrite Hempty in E. now rewrite map_size_empty in E.
Qed.

Lemma reachable_ok st : reachable st -> cache_ok st.
Proof.
  induction 1 as [| force env st Hrnd _ IH]; [now left |].
  right. destruct (getFallbackData_full force env st Hrnd IH) as [Hfull ->].
  exact Hfull.
Qed.

End FallbackFacts.

(** ** PriceFeedClient: [fetchAllPrices] *)
Section FetchAllPricesFacts.
Import Js Api.

Lemma stamp_lookup v (l : list (string * PriceEntry)) stamped :
  Forall2 (fun x y => stamp v x = Some y) l stamped ->
  forall k, (list_to_map stamped : gmap string PriceData) !! k
            = (list_to_map l : gmap string PriceEntry) !! k ≫= stampEntry v.
Proof.
  induction 1 as [| [k0 e] [k1 q] l stamped Hxy _ IH]; intros k; [done |].
  unfold stamp in Hxy. simpl in Hxy.
  destruct (stampEntry v e) as [q' |] eqn:E; [| discriminate].
  injection Hxy as <- <-. simpl.
  destruct (decide (k0 = k)) as [<- | Hne].
  - rewrite !lookup_insert_eq. simpl. now rewrite E.
  - rewrite !lookup_insert_ne by done. apply IH.
Qed.

Lemma stamp_all_quotes v (l : list (string * PriceEntry)) stamped :
  Forall2 (fun x y => stamp v x = Some y) l stamped ->
  Forall (fun x => exists q, x.2 = Quote q) l.
Proof.
  induction 1 as [| [k0 e] y l stamped Hxy _ IH]; constructor; [| exact IH].
  unfold stamp in Hxy. simpl in *. destruct e as [| q]; [discriminate | eauto].
Qed.

(** What [stampAll] returns when it returns: the keys of [data.prices],
    each with its quote, the latency replaced by the batch figure. *)
Lemma stampAll_Normal data result :
  stampAll data = Normal result ->
  exists entries,
    prices data = Keyed entries /\
    dom result = dom entries /\
    forall k, result !! k = entries !! k ≫= stampEntry (batch_latency_us data).
Proof.
  unfold stampAll. destruct (prices data) as [| entries]; [discriminate |].
  destruct (mapM _ _) as [stamped |] eqn:E; [| discriminate].
  intros [= <-]. apply mapM_Some in E.
  pose proof (stamp_lookup _ _ _ E) as Hlook.
  pose proof (stamp_all_quotes _ _ _ E) as Hall.
  rewrite list_to_map_to_list in Hlook.
  exists entries. split; [reflexivity |]. split; [| exact Hlook].
  apply set_eq. intros k. rewrite !elem_of_dom, Hlook.
  destruct (entries !! k) as [e |] eqn:Ek; simpl.
  - rewrite Forall_forall in Hall.
    destruct (Hall (k, e)) as [q Hq]; [now apply elem_of_map_to_list |].
    simpl in Hq. subst e. simpl. split; eauto.
  - split; intros [? ?]; discriminate.
Qed.

Lemma stampAll_quotes data entries :
  prices data = Keyed entries ->
  (forall k e, entries !! k = Some e -> exists q, e = Quote q) ->
  exists result, stampAll data = Normal result.
Proof.
  intros Hp Hall. unfold stampAll. rewrite Hp.
  destruct (mapM_is_Some_2 (stamp (batch_latency_us data)) (map_to_list entries))
    as [stamped ->]; [| eauto].
  apply Forall_forall. intros [k e] Hke. apply elem_of_map_to_list in Hke.
  destruct (Hall k e Hke) as [q ->]. unfold compose, stamp. simpl. eauto.
Qed.

Lemma fetchAllPrices_cases env srv st :
  (srv = Silent /\ fetchAllPrices env srv st = (st, Pending))
  \/ (succeeds srv /\
      exists result, fetchAllPrices env srv st = (st, Fulfilled result) /\
                     full_live srv result)
  \/ (srv <> Silent /\ ~ succeeds srv /\
      fetchAllPrices env srv st
      = ((getFallbackData false env st).1,
         Fulfilled (getFallbackData false env st).2)).
Proof.
  unfold fetchAllPrices, fetch. simpl.
  destruct srv as [| t | t o s j]; simpl.
  - now left.
  - right. right. split; [discriminate |]. split.
    + intros (? & ? & ? & ? & [=] & _).
    + now destruct (getFallbackData false env st).
  - right. destruct o; simpl.
    2: { right. split; [discriminate |]. split.
         - intros (? & ? & ? & ? & [=] & _).
         - now destruct (getFallbackData false env st). }
    destruct j as [[data |] | e].
    2, 3: right; (split; [discriminate |]); split;
      [intros (? & ? & ? & ? & [=] & _) | now destruct (getFallbackData false env st)].
    destruct (stampAll data) as [result | e] eqn:E.
    + left. apply stampAll_Normal in E as (entries & Hp & Hdom & Hlook).
      assert (Hq : forall k q, result !! k = Some q ->
                 exists q0, entries !! k = Some (Quote q0) /\
                            q = set_latency_us (batch_latency_us data) q0).
      { intros k q Hk. rewrite Hlook in Hk.
        destruct (entries !! k) as [[| q0] |]; try discriminate.
        simpl in Hk. injection Hk as <-. eauto. }
      split.
      * exists t, s, data, entries. split; [reflexivity |]. split; [exact Hp |].
        intros k e Hk.
        assert (Hin : k ∈ dom result) by (rewrite Hdom; apply elem_of_dom; eauto).
        apply elem_of_dom in Hin as [q Hr].
        destruct (Hq k q Hr) as (q0 & Hq0 & _). exists q0. congruence.
      * exists result. split; [reflexivity |].
        exists t, s, data, entries. split; [reflexivity |]. split; [exact Hp |].
        split; [exact Hdom |]. intros k q Hk.
        destruct (Hq k q Hk) as (q0 & Hq0 & ->). split; [reflexivity | eauto].
    + right. split; [discriminate |]. split.
      * intros (? & ? & data' & entries & Heq & Hp & Hall).
        injection Heq as _ _ ->.
        destruct (stampAll_quotes data' entries Hp Hall) as [r Hr]. congruence.
      * now destruct (getFallbackData false env st).
Qed.

(** C1.  In every reachable module state and for every behaviour of the
    endpoint, [fetchAllPrices] is never rejected and never returns a
    partial mapping.  When the request succeeds, the result is the full
    live mapping: the keys the endpoint reported, every quote carrying the
    one batch latency.  On a non-success status or any exception, the
    result is the complete fallback mapping over the five fallback
    symbols.  It settles whenever the endpoint answers or fails. *)
Theorem fetchAllPrices_never_partial env srv st :
  unit_draws (random env) -> reachable st ->
  match (fetchAllPrices env srv st).2 with
  | Pending => srv = Silent
  | Rejected _ => False
  | Fulfilled result =>
      srv <> Silent /\
      ((succeeds srv /\ full_live srv result) \/
       (~ succeeds srv /\ full_fallback result /\
        dom result = list_to_set symbols))
  end.
Proof.
  intros Hrnd Hst.
  destruct (fetchAllPrices_cases env srv st)
    as [[-> ->] | [(Hs & result & -> & Hlive) | (Hne & Hns & Hfb)]]; simpl.
  - reflexivity.
  - split; [| now left].
    destruct Hs as (? & ? & ? & ? & -> & _). discriminate.
  - rewrite Hfb. simpl. split; [exact Hne |]. right.
    destruct (getFallbackData_full false env st Hrnd (reachable_ok _ Hst))
      as [Hfull _].
    split; [exact Hns |]. split; [exact Hfull | apply Hfull].
Qed.

Lemma calm_draws : unit_draws (random calm).
Proof. intros k. split; reflexivity || discriminate. Qed.

Lemma fetchAllPrices_never_partial_witness :
  unit_draws (random calm) /\ reachable initial /\
  match (fetchAllPrices calm (Fails 40) initial).2 with
  | Pending => @Fails (option BulkPayload) 40 = Silent
  | Rejected _ => False
  | Fulfilled result =>
      @Fails (option BulkPayload) 40 <> Silent /\
      ((succeeds (Fails 40) /\ full_live (Fails 40) result) \/
       (~ succeeds (Fails 40) /\ full_fallback result /\
        dom result = list_to_set symbols))
  end.
Proof.
  split; [exact calm_draws |]. split; [constructor |].
  apply (fetchAllPrices_never_partial calm (Fails 40) initial);
    [exact calm_draws | constructor].
Defined.

(** The module state after [fetchAllPrices] is again a reachable one. *)
Lemma fetchAllPrices_reachable env srv st :
  unit_draws (random env) -> reachable st ->
  reachable (fetchAllPrices env srv st).1.
Proof.
  intros Hrnd Hst.
  destruct (fetchAllPrices_cases env srv st)
    as [[_ ->] | [(_ & result & -> & _) | (_ & _ & ->)]]; simpl; try exact Hst.
  now constructor.
Qed.

End FetchAllPricesFacts.

(** ** PriceFeedClient: time-outs and statistics *)
Section RestFacts.
Import Js Api.

(** C6 fails on the code.  [fetchAllPrices] calls [fetch(url)] without an
    abort signal, so against an endpoint that never answers it stays
    pending for ever; [fetchPrice], [fetchStats] and [healthCheck] pass
    [AbortSignal.timeout(5000)] and settle. *)
Theorem fetchAllPrices_without_timeout :
  (forall env, signal (fetchAllPrices_request env) = None)
  /\ (forall env st, fetchAllPrices env Silent st = (st, Pending))
  /\ (forall env symbol, signal (fetchPrice_request env symbol) = Some 5000)
  /\ (forall env, signal (fetchStats_request env) = Some 5000)
  /\ (forall env, signal (healthCheck_request env) = Some 5000)
  /\ (forall env symbol st, (fetchPrice env symbol Silent st).2 <> Pending)
  /\ (forall env, fetchStats env Silent <> Pending)
  /\ (forall env, healthCheck (B := unit) env Silent = Fulfilled false).
Proof.
  repeat split; try discriminate.
  intros env symbol st. unfold fetchPrice, fetch. simpl.
  destruct (fallbackPrice env symbol st). discriminate.
Qed.

Lemma Qfloor_below (x : Q) (b : Z) : (x < inject_Z b)%Q -> Qfloor x < b.
Proof.
  intros H. rewrite Zlt_Qlt. eapply Qle_lt_trans; [apply Qfloor_le | exact H].
Qed.

Lemma Qfloor_above (x : Q) (b : Z) : (inject_Z b <= x)%Q -> b <= Qfloor x.
Proof.
  intros H. rewrite <- (Qfloor_Z b). now apply Qfloor_resp_le.
Qed.

Lemma floor_draw (r : Q) (bound : Z) :
  0 < bound -> (0 <= r)%Q -> (r < 1)%Q ->
  0 <= floor (r * inject_Z bound)%Q < bound.
Proof.
  intros Hb H0 H1. unfold floor. split.
  - apply Qfloor_above. apply Qmult_le_0_compat; [exact H0 |].
    change 0%Q with (inject_Z 0). rewrite <- Zle_Qle. lia.
  - apply Qfloor_below. rewrite <- (Qmult_1_l (inject_Z bound)) at 2.
    apply Qmult_lt_r; [| exact H1].
    change 0%Q with (inject_Z 0). now rewrite <- Zlt_Qlt.
Qed.

Lemma fallbackStats_synthetic env :
  unit_draws (random env) -> synthetic (fallbackStats env).
Proof.
  intros Hrnd. unfold synthetic, fallbackStats. simpl.
  repeat split;
    match goal with
    | |- context [random env ?k] =>
        destruct (Hrnd k) as [H0 H1];
        first [ apply (floor_draw (random env k) 10000); (lia || assumption)
              | apply (floor_draw (random env k) 100); (lia || assumption)
              | apply (floor_draw (random env k) 10100); (lia || assumption) ]
    end.
Qed.

Lemma floor_mid (h bound : Z) :
  0 < bound ->
  floor (inject_Z (2 * h + 1) / inject_Z (2 * bound) * inject_Z bound)%Q = h.
Proof.
  intros Hb. unfold floor.
  assert (Hq : (0 < inject_Z bound)%Q)
    by (change 0%Q with (inject_Z 0); rewrite <- Zlt_Qlt; exact Hb).
  assert (E : (inject_Z (2 * h + 1) / inject_Z (2 * bound) * inject_Z bound
               == inject_Z h + (1 # 2))%Q).
  { rewrite inject_Z_plus, !inject_Z_mult.
    change (inject_Z 2) with 2%Q. change (inject_Z 1) with 1%Q. field. lra. }
  rewrite (Qfloor_comp _ _ E).
  apply Z.le_antisymm.
  - apply Z.lt_succ_r, Qfloor_below. unfold Z.succ. rewrite inject_Z_plus.
    change (inject_Z 1) with 1%Q. lra.
  - apply Qfloor_above. lra.
Qed.

Lemma mid_draw (h bound : Z) :
  0 <= h < bound ->
  (0 <= inject_Z (2 * h + 1) / inject_Z (2 * bound)
   /\ inject_Z (2 * h + 1) / inject_Z (2 * bound) < 1)%Q.
Proof.
  intros Hh.
  assert (Hq : (0 < inject_Z (2 * bound))%Q)
    by (change 0%Q with (inject_Z 0); rewrite <- Zlt_Qlt; lia).
  split.
  - apply Qle_shift_div_l; [exact Hq|]. rewrite Qmult_0_l.
    change 0%Q with (inject_Z 0). rewrite <- Zle_Qle. lia.
  - apply Qlt_shift_div_r; [exact Hq|]. rewrite Qmult_1_l.
    rewrite <- Zlt_Qlt. lia.
Qed.

(** C8 fails on the code.  [fetchStats] returns the [cache_stats] member of
    an answer that arrives in time with a success status, exactly as
    reported; in every other case it fulfils with a record made of random
    draws, in which cache_hits lies in [0, 10000), cache_misses in [0, 100)
    and total_requests in [0, 10100) = [0, 10000 + 100), but total_requests
    is a draw of its own: every combination of the three counts occurs, and
    with the draws 0.5, 0.5, 0 the record has 5000 hits, 50 misses and a
    total of 0 requests. *)
Theorem fetchStats_total_is_own_draw :
  (forall env srv,
      fetchStats env srv
      = Fulfilled (match answered srv with
                   | Some reported => reported
                   | None => Some (fallbackStats env)
                   end))
  /\ (forall env, unit_draws (random env) -> synthetic (fallbackStats env))
  /\ (forall hits misses requests,
        0 <= hits < 10000 -> 0 <= misses < 100 -> 0 <= requests < 10100 ->
        exists env,
          unit_draws (random env) /\
          cache_hits (fallbackStats env) = hits /\
          cache_misses (fallbackStats env) = misses /\
          total_requests (fallbackStats env) = requests)
  /\ (exists c,
        fetchStats uneven (Fails 40) = Fulfilled (Some c) /\
        cache_hits c = 5000 /\ cache_misses c = 50 /\ total_requests c = 0 /\
        total_requests c <> cache_hits c + cache_misses c).
Proof.
  split; [|split; [|split]].
  - intros env srv. unfold fetchStats, fetch, answered. cbn [signal fetchStats_request].
    destruct srv as [| t | t o s j]; try reflexivity.
    + destruct (5000 <? t); reflexivity.
    + destruct (Z.ltb_spec 5000 t), (Z.leb_spec t 5000); try lia;
        destruct o; cbn [json ok negb]; try reflexivity;
        destruct j as [[reported |] | e]; reflexivity.
  - exact fallbackStats_synthetic.
  - intros hits misses requests Hh Hm Hr.
    exists {| PROD := false; now := 0; isoNow := EmptyString;
              random := fun k =>
                match k with
                | 0%nat => (inject_Z (2 * hits + 1) / inject_Z (2 * 10000))%Q
                | 1%nat => (inject_Z (2 * misses + 1) / inject_Z (2 * 100))%Q
                | 2%nat => (inject_Z (2 * requests + 1) / inject_Z (2 * 10100))%Q
                | _ => 0.5%Q
                end |}.
    split; [|split; [|split]].
    + intros k. cbn [random].
      destruct k as [|[|[|k]]]; [apply mid_draw; lia ..|split; lra].
    + apply (floor_mid hits 10000). lia.
    + apply (floor_mid misses 100). lia.
    + apply (floor_mid requests 10100). lia.
  - eexists. split; [reflexivity |]. vm_compute. repeat split; discriminate.
Qed.

Lemma fetchStats_total_is_own_draw_witness :
  unit_draws (random calm) /\ synthetic (fallbackStats calm) /\
  exists env,
    unit_draws (random env) /\
    cache_hits (fallbackStats env) = 9999 /\
    cache_misses (fallbackStats env) = 0 /\
    total_requests (fallbackStats env) = 17.
Proof.
  split; [exact calm_draws |].
  split; [apply (proj1 (proj2 fetchStats_total_is_own_draw) calm calm_draws) |].
  apply (proj1 (proj2 (proj2 fetchStats_total_is_own_draw)) 9999 0 17); lia.
Defined.

End RestFacts.

(** ** FallbackSynthesizer: the generated price *)
Section FallbackPriceFacts.
Import Js Api.

Lemma round_fixed_between (x : Q) (lo hi : Z) :
  0 <= lo ->
  (inject_Z lo <= x * 100)%Q -> (x * 100 <= inject_Z hi)%Q ->
  (inject_Z lo <= round_fixed x 2 * 100)%Q /\
  (round_fixed x 2 * 100 <= inject_Z hi)%Q.
Proof.
  intros Hlo Hx1 Hx2.
  rewrite Zle_Qle in Hlo. change (inject_Z 0) with 0%Q in Hlo.
  assert (H0 : (0 <= x)%Q) by lra.
  unfold round_fixed. destruct (Qlt_le_dec x 0) as [Hneg | _]; [lra |].
  unfold toFixed_digits. change (inject_Z (10 ^ Z.of_nat 2)) with 100%Q.
  rewrite (Qabs_pos x H0).
  set (n := Qfloor (x * 100 + 0.5)).
  assert (Hn1 : lo <= n) by (apply Qfloor_above; lra).
  assert (Hn2 : n < hi + 1).
  { apply Qfloor_below. rewrite inject_Z_plus. change (inject_Z 1) with 1%Q. lra. }
  assert (Hn3 : n <= hi) by lia.
  rewrite Zle_Qle in Hn1, Hn3.
  change (inject_Z n / 100)%Q with (inject_Z n * (1 # 100))%Q.
  split; lra.
Qed.

(** A generated price is within one price unit of the base price, for a
    base price of whole cents, at least one unit. *)
Lemma generated_price_near_base iso rnd k (cents : Z) :
  unit_draws rnd -> 100 <= cents ->
  (exists base, basePrice !! k = Some base /\ (base * 100 == inject_Z cents)%Q) ->
  let q := generateFallbackPriceData iso rnd k in
  (inject_Z (cents - 100) <= price q * 100)%Q /\
  (price q * 100 <= inject_Z (cents + 100))%Q.
Proof.
  intros Hrnd Hc (base & Hk & Hbase) q. subst q.
  unfold generateFallbackPriceData. simpl.
  rewrite Hk. simpl. destruct (Hrnd 0%nat) as [H0 H1].
  apply round_fixed_between; [lia | |]; unfold Z.sub;
    rewrite inject_Z_plus; change (inject_Z (- (100))) with (- (100))%Q;
    change (inject_Z 100) with 100%Q; lra.
Qed.

(** The true part of C7: [fetchPrice("AAPL")] against an endpoint that
    cannot be reached returns a fallback quote whose price is between
    180.5 and 182.5, hence between 179.5 and 183.5. *)
Lemma fetchPrice_AAPL_unreachable env st at_ms :
  unit_draws (random env) -> reachable st ->
  exists q,
    (fetchPrice env "AAPL" (Fails at_ms) st).2 = Fulfilled (Some q) /\
    source q = "fallback" /\
    (180.5 <= price q)%Q /\ (price q <= 182.5)%Q /\
    (179.5 <= price q)%Q /\ (price q <= 183.5)%Q.
Proof.
  intros Hrnd Hst.
  destruct (getFallbackData_full false env st Hrnd (reachable_ok _ Hst))
    as [[Hdom Hgen] _].
  assert (Hin : "AAPL" ∈ dom (getFallbackData false env st).2).
  { rewrite Hdom. unfold symbols. cbn [list_to_set foldr]. set_solver. }
  apply elem_of_dom in Hin as [q Hq].
  exists q. split.
  - unfold fetchPrice, fetch, fallbackPrice.
    change (toUpperCase "AAPL") with "AAPL".
    cbn [signal fetchPrice_request].
    destruct (5000 <? at_ms);
      destruct (getFallbackData false env st) as [st' cache];
      cbn [snd] in *; now rewrite Hq.
  - destruct (Hgen _ _ Hq) as (iso & rnd & Hr & ->).
    split; [reflexivity |].
    destruct (generated_price_near_base iso rnd "AAPL" 18150 Hr) as [Hlo Hhi];
      [lia | eexists; split; reflexivity |].
    cbv zeta in Hlo, Hhi.
    change (inject_Z (18150 - 100)) with 18050%Q in Hlo.
    change (inject_Z (18150 + 100)) with 18250%Q in Hhi.
    repeat split; lra.
Qed.

(** C7 fails on the code.  The perturbation is [(Math.random() - 0.5) * 2],
    a number in [-1, 1) of price units whatever the base price, although
    the comment on that line says 1%.  For the draw 0 the generated MSFT
    price is 444.00 (base 445), where a perturbation of 1% of the base
    gives 440.55; and the same draw moves AAPL (base 181.5) and GOOGL
    (base 140) by exactly the same amount, 1.00. *)
Theorem fallback_perturbation_is_absolute iso :
  let lowest := generateFallbackPriceData iso (fun _ => 0%Q) in
  (price (lowest "MSFT") == 444)%Q
  /\ (round_fixed (price_within_one_percent 445 0) 2 == 440.55)%Q
  /\ ~ (price (lowest "MSFT") == round_fixed (price_within_one_percent 445 0) 2)%Q
  /\ (445 - price (lowest "MSFT") == 1)%Q
  /\ (181.5 - price (lowest "AAPL") == 1)%Q
  /\ (140 - price (lowest "GOOGL") == 1)%Q.
Proof.
  cbv zeta. repeat split; try (vm_compute; reflexivity).
  vm_compute. discriminate.
Qed.

End FallbackPriceFacts.

(** ** Export *)
Section ExportFacts.
Import Js Exporter.

(** C10.  For the empty list the serializers return a fixed message and
    not a CSV document with only the header line:
    [benchmarkToCSV([])] is "No benchmark results to export" and
    [metricsToCSV([])] is "No metrics data to export"; this message is the
    content that an export of an empty history hands to the download. *)
Theorem csv_of_empty_is_message :
  benchmarkToCSV [] = "No benchmark results to export"
  /\ metricsToCSV [] = "No metrics data to export"
  /\ benchmarkToCSV [] <> csvContent benchmarkHeaders []
  /\ metricsToCSV [] <> csvContent metricsHeaders []
  /\ (exportBenchmarkCsv []).1 = "No benchmark results to export"
  /\ (exportMetricsCsv []).1 = "No metrics data to export".
Proof.
  repeat split; try reflexivity; vm_compute; discriminate.
Qed.

(** For a list that is not empty the serializers do produce the header
    line followed by one line per element. *)
Lemma csv_of_nonempty (results : list BenchmarkResult) (metrics : list MetricsSnapshot) :
  results <> [] -> metrics <> [] ->
  benchmarkToCSV results = csvContent benchmarkHeaders (map benchmarkRow results)
  /\ metricsToCSV metrics = csvContent metricsHeaders (map metricsRow metrics).
Proof.
  intros Hr Hm. unfold benchmarkToCSV, metricsToCSV.
  destruct results; [congruence |]. destruct metrics; [congruence |].
  split; reflexivity.
Qed.

End ExportFacts.

(** ** FallbackSynthesizer and PriceFeedClient: further properties *)
Section ApiMoreFacts.
Import Js Api.

Lemma round_fixed_mono (x y : Q) :
  (0 <= x)%Q -> (x <= y)%Q -> (round_fixed x 2 <= round_fixed y 2)%Q.
Proof.
  intros Hx Hxy. assert (Hy : (0 <= y)%Q) by lra.
  unfold round_fixed.
  destruct (Qlt_le_dec x 0) as [Hneg | _]; [lra |].
  destruct (Qlt_le_dec y 0) as [Hneg | _]; [lra |].
  unfold toFixed_digits. change (inject_Z (10 ^ Z.of_nat 2)) with 100%Q.
  rewrite (Qabs_pos x Hx), (Qabs_pos y Hy).
  assert (Hfl : Qfloor (x * 100 + 0.5) <= Qfloor (y * 100 + 0.5))
    by (apply Qfloor_resp_le; lra).
  rewrite Zle_Qle in Hfl.
  set (a := inject_Z (Qfloor (x * 100 + 0.5))) in *.
  set (b := inject_Z (Qfloor (y * 100 + 0.5))) in *.
  change (a / 100)%Q with (a * (1 # 100))%Q.
  change (b / 100)%Q with (b * (1 # 100))%Q. lra.
Qed.

Lemma basePrice_at_least k b : basePrice !! k = Some b -> (140 <= b)%Q.
Proof.
  unfold basePrice. intros H.
  repeat (apply lookup_insert_Some in H; destruct H as [[_ <-] | [_ H]];
          [discriminate |]).
  rewrite lookup_empty in H. discriminate.
Qed.

Lemma base_at_least k : (140 <= default 150%Q (basePrice !! k))%Q.
Proof.
  destruct (basePrice !! k) as [b |] eqn:E; simpl;
    [eapply basePrice_at_least; eassumption | discriminate].
Qed.

(** X1.  For each of the five fallback symbols and whatever the draws, the
    generated fallback quote has bid <= price <= ask, a volume in
    [0, 10000000), a latency of 100 to 1099 ns and of 0.1 to 0.9
    microseconds, the symbol it was asked for and the source "fallback". *)
Theorem generated_quote_well_formed iso rnd k :
  k ∈ symbols ->
  unit_draws rnd ->
  let q := generateFallbackPriceData iso rnd k in
  (bid q <= price q)%Q /\ (price q <= ask q)%Q /\
  0 <= volume q < 10000000 /\
  100 <= latency_ns q < 1100 /\
  (0.1 <= latency_us q)%Q /\ (latency_us q <= 0.9)%Q /\
  symbol q = k /\ source q = "fallback".
Proof.
  intros _ Hrnd q. subst q. unfold generateFallbackPriceData. cbn [bid price ask
    volume latency_ns latency_us symbol source].
  pose proof (base_at_least k) as Hb.
  set (base := default 150%Q (basePrice !! k)) in *.
  destruct (Hrnd 0%nat) as [H00 H01]. destruct (Hrnd 1%nat) as [H10 H11].
  destruct (Hrnd 2%nat) as [H20 H21]. destruct (Hrnd 3%nat) as [H30 H31].
  split; [apply round_fixed_mono; lra |].
  split; [apply round_fixed_mono; lra |].
  split; [apply (floor_draw (rnd 1%nat) 10000000); (lia || assumption) |].
  split.
  { pose proof (floor_draw (rnd 2%nat) 1000) as Hns.
    change (inject_Z 1000) with 1000%Q in Hns.
    specialize (Hns ltac:(lia) H20 H21). lia. }
  destruct (round_fixed_between (rnd 3%nat * 0.8 + 0.1) 10 90) as [Hlo Hhi];
    [lia | change (inject_Z 10) with 10%Q; lra
     | change (inject_Z 90) with 90%Q; lra |].
  change (inject_Z 10) with 10%Q in Hlo. change (inject_Z 90) with 90%Q in Hhi.
  repeat split; lra.
Qed.

Lemma generated_quote_well_formed_witness :
  "TSLA" ∈ symbols /\ unit_draws (fun _ => 0.5%Q) /\
  let q := generateFallbackPriceData "t" (fun _ => 0.5%Q) "TSLA" in
  (bid q <= price q)%Q /\ (price q <= ask q)%Q /\
  0 <= volume q < 10000000 /\
  100 <= latency_ns q < 1100 /\
  (0.1 <= latency_us q)%Q /\ (latency_us q <= 0.9)%Q /\
  symbol q = "TSLA" /\ source q = "fallback".
Proof.
  assert (Hk : "TSLA" ∈ symbols) by (apply list_elem_of_In; vm_compute; auto 6).
  split; [exact Hk |]. split; [exact calm_draws |].
  apply (generated_quote_well_formed "t" (fun _ => 0.5%Q) "TSLA" Hk).
  exact calm_draws.
Defined.

Lemma regenerate_not_empty env : size (regenerate env) <> 0%nat.
Proof.
  rewrite map_size_empty_iff, regenerate_inserts. apply insert_non_empty.
Qed.

Lemma getFallbackData_not_empty force env st :
  size (fallbackDataCache (getFallbackData force env st).1) <> 0%nat.
Proof.
  unfold getFallbackData.
  destruct (force || bool_decide (now env - lastFallbackUpdate st > cacheExpiry)
            || bool_decide (size (fallbackDataCache st) = 0%nat)) eqn:E; simpl.
  - apply regenerate_not_empty.
  - apply orb_false_elim in E as [_ E]. now apply bool_decide_eq_false in E.
Qed.

(** X2.  The fallback cache has a freshness window of 2000 ms: after any
    call of [getFallbackData], every unforced call made no later than
    2000 ms after the last regeneration returns the very same mapping and
    leaves the module state untouched (it draws no random number); the
    first call after the window, and every forced call, regenerates all
    five quotes and restarts the window at the time of that call. *)
Theorem getFallbackData_freshness force env st env2 :
  let st1 := (getFallbackData force env st).1 in
  let m1 := (getFallbackData force env st).2 in
  (now env2 - lastFallbackUpdate st1 <= 2000 ->
   getFallbackData false env2 st1 = (st1, m1))
  /\ (now env2 - lastFallbackUpdate st1 > 2000 ->
      getFallbackData false env2 st1
      = ({| fallbackDataCache := regenerate env2; lastFallbackUpdate := now env2 |},
         regenerate env2))
  /\ getFallbackData true env2 st1
     = ({| fallbackDataCache := regenerate env2; lastFallbackUpdate := now env2 |},
        regenerate env2)
  /\ (force = true -> lastFallbackUpdate st1 = now env /\ m1 = regenerate env).
Proof.
  cbv zeta. pose proof (getFallbackData_not_empty force env st) as Hne.
  assert (Hm : fallbackDataCache (getFallbackData force env st).1
               = (getFallbackData force env st).2).
  { unfold getFallbackData. now destruct (_ || _ || _). }
  split; [| split; [| split]].
  - intros Hfresh. unfold getFallbackData at 1. cbn [orb].
    rewrite (bool_decide_eq_false_2 _ Hne).
    rewrite bool_decide_eq_false_2 by (unfold cacheExpiry; lia).
    cbn [orb]. now rewrite Hm.
  - intros Hold. unfold getFallbackData at 1. cbn [orb].
    now rewrite bool_decide_eq_true_2 by (unfold cacheExpiry; lia).
  - reflexivity.
  - intros ->. split; reflexivity.
Qed.

Lemma getFallbackData_freshness_witness :
  now calm - lastFallbackUpdate (getFallbackData true calm initial).1 <= 2000 /\
  getFallbackData false calm (getFallbackData true calm initial).1
  = ((getFallbackData true calm initial).1, (getFallbackData true calm initial).2).
Proof.
  split; [simpl; lia |].
  apply (proj1 (getFallbackData_freshness true calm initial calm)).
  simpl; lia.
Defined.

End ApiMoreFacts.

(** ** PriceFeedClient: [fetchPrice], [healthCheck], [fetchStats] *)
Section RestMoreFacts.
Import Js Api.

Lemma upper_ascii_idem c : upper_ascii (upper_ascii c) = upper_ascii c.
Proof. destruct c as [[] [] [] [] [] [] [] []]; reflexivity. Qed.

Lemma toUpperCase_idem s : toUpperCase (toUpperCase s) = toUpperCase s.
Proof.
  induction s as [| c s IH]; simpl; [reflexivity |].
  now rewrite upper_ascii_idem, IH.
Qed.

Lemma lookup_full_fallback (m : gmap string PriceData) k :
  full_fallback m ->
  (k ∈ symbols -> exists q, m !! k = Some q /\ generated k q)
  /\ (k ∉ symbols -> m !! k = None).
Proof.
  intros [Hdom Hgen]. split; intros Hk.
  - assert (Hin : k ∈ dom m) by (rewrite Hdom; now apply elem_of_list_to_set).
    apply elem_of_dom in Hin as [q Hq]. eauto.
  - apply not_elem_of_dom. rewrite Hdom. now rewrite elem_of_list_to_set.
Qed.

Lemma fetchPrice_cases env symbol srv st :
  (exists body, answered_in_time srv 5000 body /\
                fetchPrice env symbol srv st = (st, Fulfilled body))
  \/ ((forall body, ~ answered_in_time srv 5000 body) /\
      fetchPrice env symbol srv st
      = ((getFallbackData false env st).1,
         Fulfilled ((getFallbackData false env st).2 !! toUpperCase symbol))).
Proof.
  assert (Hfb : forall P : Prop, P ->
    P /\ (let '(st', r) := fallbackPrice env symbol st in (st', Fulfilled r))
         = ((getFallbackData false env st).1,
            Fulfilled ((getFallbackData false env st).2 !! toUpperCase symbol))).
  { intros P HP. split; [exact HP |]. unfold fallbackPrice.
    now destruct (getFallbackData false env st). }
  unfold fetchPrice, fetch. cbn [signal fetchPrice_request].
  destruct srv as [| t | t o s j].
  - right. apply Hfb. intros body (? & ? & [=] & _).
  - right. destruct (5000 <? t); apply Hfb; intros body (? & ? & [=] & _).
  - destruct (Z.ltb_spec 5000 t) as [Hlate | Hintime].
    + right. apply Hfb. intros body (? & ? & [= <- _ _ _] & Ht). lia.
    + cbn [ok json negb]. destruct o; cbn [negb].
      * destruct j as [body | e].
        -- left. exists body. split; [now exists t, s | reflexivity].
        -- right. apply Hfb. intros body (? & ? & [=] & _).
      * right. apply Hfb. intros body (? & ? & [=] & _).
Qed.

(** X3.  [fetchPrice] always settles and is never rejected.  When the
    endpoint answers within 5000 ms with a success status and a body that
    parses, the result is that body and the module state is untouched.
    In every other case (time-out, transport failure, non-success status,
    unparsable body) the result is the fallback quote of the upper-cased
    symbol when that is one of the five fallback symbols, and [null] for
    any other symbol. *)
Theorem fetchPrice_live_or_fallback env symbol srv st :
  unit_draws (random env) -> reachable st ->
  exists r,
    (fetchPrice env symbol srv st).2 = Fulfilled r /\
    reachable (fetchPrice env symbol srv st).1 /\
    ((answered_in_time srv 5000 r /\ (fetchPrice env symbol srv st).1 = st)
     \/ ((forall body, ~ answered_in_time srv 5000 body) /\
         (toUpperCase symbol ∈ symbols ->
          exists q, r = Some q /\ generated (toUpperCase symbol) q /\
                    Api.symbol q = toUpperCase symbol /\ source q = "fallback") /\
         (toUpperCase symbol ∉ symbols -> r = None))).
Proof.
  intros Hrnd Hst.
  destruct (fetchPrice_cases env symbol srv st)
    as [(body & Hans & ->) | (Hnot & ->)]; cbn [fst snd].
  - exists body. split; [reflexivity |]. split; [exact Hst |]. left. now split.
  - eexists. split; [reflexivity |]. split; [now constructor |]. right.
    split; [exact Hnot |].
    destruct (getFallbackData_full false env st Hrnd (reachable_ok _ Hst))
      as [Hfull _].
    destruct (lookup_full_fallback _ (toUpperCase symbol) Hfull) as [Hin Hout].
    split; [| exact Hout].
    intros Hk. destruct (Hin Hk) as (q & Hq & Hg). exists q.
    split; [exact Hq |]. split; [exact Hg |].
    destruct Hg as (iso & rnd & _ & ->). split; reflexivity.
Qed.

Lemma fetchPrice_live_or_fallback_witness :
  unit_draws (random calm) /\ reachable initial /\
  exists r,
    (fetchPrice calm "msft" Silent initial).2 = Fulfilled r /\
    reachable (fetchPrice calm "msft" Silent initial).1 /\
    ((answered_in_time Silent 5000 r /\
      (fetchPrice calm "msft" Silent initial).1 = initial)
     \/ ((forall body, ~ answered_in_time (@Silent (option PriceData)) 5000 body) /\
         (toUpperCase "msft" ∈ symbols ->
          exists q, r = Some q /\ generated (toUpperCase "msft") q /\
                    Api.symbol q = toUpperCase "msft" /\ source q = "fallback") /\
         (toUpperCase "msft" ∉ symbols -> r = None))).
Proof.
  split; [exact calm_draws |]. split; [constructor |].
  apply (fetchPrice_live_or_fallback calm "msft" Silent initial);
    [exact calm_draws | constructor].
Defined.

(** X4.  [fetchPrice] reads its argument only through [toUpperCase]: a
    symbol and its upper-cased form give the same request and, for the same
    behaviour of the endpoint, the same result and module state. *)
Theorem fetchPrice_ignores_case env symbol srv st :
  fetchPrice_request env (toUpperCase symbol) = fetchPrice_request env symbol
  /\ fetchPrice env (toUpperCase symbol) srv st = fetchPrice env symbol srv st.
Proof.
  assert (Hreq : fetchPrice_request env (toUpperCase symbol)
                 = fetchPrice_request env symbol).
  { unfold fetchPrice_request. now rewrite toUpperCase_idem. }
  split; [exact Hreq |].
  unfold fetchPrice, fallbackPrice. now rewrite Hreq, toUpperCase_idem.
Qed.

(** X5.  [healthCheck] always settles and is never rejected: it reports
    [true] exactly when the endpoint answers within 5000 ms with a success
    status, and [false] for a late, failed, silent or non-success answer. *)
Theorem healthCheck_reports {B} env (srv : Server B) :
  (healthCheck env srv = Fulfilled true \/ healthCheck env srv = Fulfilled false)
  /\ (healthCheck env srv = Fulfilled true <->
      exists at_ms status j, srv = Answers at_ms true status j /\ at_ms <= 5000).
Proof.
  unfold healthCheck, fetch. cbn [signal healthCheck_request].
  destruct srv as [| t | t o s j].
  - split; [now right |]. split; [discriminate | intros (? & ? & ? & [=] & _)].
  - destruct (5000 <? t); (split; [now right |]);
      (split; [discriminate | intros (? & ? & ? & [=] & _)]).
  - destruct (Z.ltb_spec 5000 t) as [Hlate | Hintime].
    + split; [now right |]. split; [discriminate |].
      intros (? & ? & ? & [= <- _ _ _] & Ht). lia.
    + cbn [ok]. destruct o.
      * split; [now left |]. split; [| reflexivity]. intros _. now exists t, s, j.
      * split; [now right |]. split; [discriminate |].
        intros (? & ? & ? & [=] & _).
Qed.

Lemma healthCheck_reports_witness :
  (exists at_ms status j,
      @Answers unit 40 true 200 (Normal tt) = Answers at_ms true status j /\ at_ms <= 5000)
  /\ healthCheck calm (Answers 40 true 200 (Normal tt)) = Fulfilled true.
Proof.
  assert (H : exists at_ms status j,
             @Answers unit 40 true 200 (Normal tt) = Answers at_ms true status j
             /\ at_ms <= 5000).
  { exists 40, 200, (Normal tt). split; [reflexivity | lia]. }
  split; [exact H |].
  exact (proj2 (proj2 (healthCheck_reports calm (Answers 40 true 200 (Normal tt)))) H).
Defined.

(** X6.  The statistics that [fetchStats] synthesizes on failure have a hit
    rate between 99.5 and 100 and a mean latency between 0.39 and 0.59,
    the bounds included: with the largest draw below 1 the sums round to
    100 and to 0.59 themselves. *)
Theorem fallbackStats_rates :
  (forall env,
      unit_draws (random env) -> binary64_draws (random env) ->
      (99.5 <= hit_rate_percent (fallbackStats env))%Q /\
      (hit_rate_percent (fallbackStats env) <= 100)%Q /\
      (binary64 0.39 <= avg_latency_us (fallbackStats env))%Q /\
      (avg_latency_us (fallbackStats env) <= binary64 0.59)%Q)
  /\ (hit_rate_percent (fallbackStats brim) == 100)%Q
  /\ (avg_latency_us (fallbackStats brim) == binary64 0.59)%Q.
Proof.
  split; [| split; apply Qeq_bool_iff; vm_compute; reflexivity].
  intros env Hrnd Hdbl.
  destruct (Hrnd 3%nat) as [H30 H31]. destruct (Hrnd 4%nat) as [H40 H41].
  pose proof (double_below_one _ (Hdbl 4%nat) H41) as H42.
  unfold fallbackStats. cbn [hit_rate_percent avg_latency_us].
  set (r3 := random env 3%nat) in *. set (r4 := random env 4%nat) in *.
  assert (E995 : (binary64 99.5 == 99.5)%Q)
    by (apply Qeq_bool_iff; vm_compute; reflexivity).
  assert (E100 : (binary64 100 == 100)%Q)
    by (apply Qeq_bool_iff; vm_compute; reflexivity).
  assert (E05 : (binary64 0.5 == 0.5)%Q)
    by (apply Qeq_bool_iff; vm_compute; reflexivity).
  assert (E039 : (binary64 (binary64 0.39) == binary64 0.39)%Q)
    by (apply Qeq_bool_iff; vm_compute; reflexivity).
  assert (P039 : (0 <= binary64 0.39)%Q) by (apply binary64_nonneg; lra).
  assert (P02 : (0 <= binary64 0.2)%Q) by (apply binary64_nonneg; lra).
  assert (H3lo : (0 <= binary64 (r3 * 0.5))%Q) by (apply binary64_nonneg; lra).
  assert (H3hi : (binary64 (r3 * 0.5) <= 0.5)%Q).
  { apply Qle_trans with (binary64 0.5); [apply binary64_mono; lra | lra]. }
  assert (H4 : (0 <= r4 * binary64 0.2)%Q) by (apply Qmult_le_0_compat; lra).
  assert (H4lo : (0 <= binary64 (r4 * binary64 0.2))%Q)
    by (apply binary64_nonneg; exact H4).
  assert (H4hi : (binary64 (r4 * binary64 0.2)
                  <= binary64 ((1 - pow2 (-53)) * binary64 0.2))%Q).
  { apply binary64_mono; [exact H4 |]. apply Qmult_le_compat_r; assumption. }
  split; [| split; [| split]].
  - apply Qle_trans with (binary64 99.5); [lra | apply binary64_mono; lra].
  - apply Qle_trans with (binary64 100); [apply binary64_mono; lra | lra].
  - apply Qle_trans with (binary64 (binary64 0.39));
      [lra | apply binary64_mono; lra].
  - eapply Qle_trans.
    + apply binary64_mono; [lra |].
      apply Qplus_le_r. exact H4hi.
    + apply Qle_bool_iff. vm_compute. reflexivity.
Qed.

Lemma fallbackStats_rates_witness :
  unit_draws (random calm) /\ binary64_draws (random calm) /\
  (99.5 <= hit_rate_percent (fallbackStats calm))%Q /\
  (hit_rate_percent (fallbackStats calm) <= 100)%Q /\
  (binary64 0.39 <= avg_latency_us (fallbackStats calm))%Q /\
  (avg_latency_us (fallbackStats calm) <= binary64 0.59)%Q.
Proof.
  assert (H : binary64_draws (random calm))
    by (intros k; apply Qeq_bool_iff; vm_compute; reflexivity).
  split; [exact calm_draws |]. split; [exact H |].
  apply (proj1 fallbackStats_rates calm calm_draws H).
Defined.

(** X7.  The Home page takes statistics for live ones when
    [total_requests > 100].  Synthesized statistics pass this test exactly
    when their third draw is at least 101/10100, so most fallback
    statistics are shown as coming from the live API; missing statistics
    never are. *)
Theorem isRealApi_of_synthetic env :
  unit_draws (random env) ->
  (Home.isRealApi (Some (fallbackStats env)) = true
   <-> (101 # 10100 <= random env 2%nat)%Q)
  /\ Home.isRealApi None = false.
Proof.
  intros Hrnd. split; [| reflexivity].
  unfold Home.isRealApi, fallbackStats. cbn [total_requests]. unfold floor.
  rewrite Z.gtb_gt. split; intros H.
  - assert (H' : 101 <= Qfloor (random env 2%nat * 10100)) by lia.
    rewrite Zle_Qle in H'.
    pose proof (Qfloor_le (random env 2%nat * 10100)) as Hfl.
    change (inject_Z 101) with 101%Q in H'. lra.
  - assert (H' : 101 <= Qfloor (random env 2%nat * 10100)).
    { apply Qfloor_above. change (inject_Z 101) with 101%Q. lra. }
    lia.
Qed.

Lemma isRealApi_of_synthetic_witness :
  unit_draws (random calm) /\
  Home.isRealApi (Some (fallbackStats calm)) = true.
Proof.
  split; [exact calm_draws |].
  apply (proj1 (isRealApi_of_synthetic calm calm_draws)). simpl. lra.
Defined.

End RestMoreFacts.

(** ** The benchmark loops *)
Section BenchmarkFacts.
Import Js Api Benchmarks.

Lemma cachedLoop_samples symbol trials n : forall i acc st,
  exists st',
    cachedLoop symbol trials n i acc st
    = (st', Fulfilled (acc ++ map (elapsed trials) (seq i n))).
Proof.
  induction n as [| n IH]; intros i acc st; simpl.
  - exists st. now rewrite app_nil_r.
  - destruct (fetchPrice_cases (trial_env (trials i)) symbol
                (trial_server (trials i)) st)
      as [(body & _ & ->) | (_ & ->)];
      destruct (IH (S i) (acc ++ [binary64 (trial_stop (trials i) - trial_start (trials i))%Q]))
        with (st := st) as [st1 H1];
      destruct (IH (S i) (acc ++ [binary64 (trial_stop (trials i) - trial_start (trials i))%Q])
                  (getFallbackData false (trial_env (trials i)) st).1) as [st2 H2].
    + exists st1. rewrite H1. now rewrite <- app_assoc.
    + exists st2. rewrite H2. now rewrite <- app_assoc.
Qed.

(** X8.  [benchmarkCachedLatency] always settles with exactly [iterations]
    samples, the i-th being the time measured around the i-th call of
    [fetchPrice], whether the endpoint answers, fails or never answers;
    for no iterations the result is the empty list. *)
Theorem benchmarkCachedLatency_samples symbol iterations trials st :
  exists st' latencies,
    benchmarkCachedLatency symbol iterations trials st = (st', Fulfilled latencies) /\
    length latencies = iterations /\
    latencies = map (elapsed trials) (seq 0 iterations).
Proof.
  destruct (cachedLoop_samples symbol trials iterations 0%nat [] st) as [st' H].
  exists st', (map (elapsed trials) (seq 0 iterations)).
  split; [exact H |]. split; [| reflexivity].
  now rewrite length_map, length_seq.
Qed.

Lemma uncachedLoop_samples {B} symbol (trials : nat -> Trial B) iterations n :
  forall i acc slept,
    (i + n = iterations)%nat ->
    uncachedLoop symbol trials iterations n i acc slept
    = Fulfilled (acc ++ map (elapsed trials) (seq i n),
                 slept + 500 * Z.of_nat (n - 1)).
Proof.
  induction n as [| n IH]; intros i acc slept Hin; simpl.
  - rewrite app_nil_r. do 2 f_equal. lia.
  - assert (Hstep :
      uncachedLoop symbol trials iterations n (S i)
        (acc ++ [binary64 (trial_stop (trials i) - trial_start (trials i))%Q])
        (if (i <? iterations - 1)%nat then slept + 500 else slept)
      = Fulfilled (acc ++ elapsed trials i :: map (elapsed trials) (seq (S i) n),
                   slept + 500 * Z.of_nat (S n - 1))).
    { rewrite IH by lia. rewrite <- app_assoc. simpl. do 2 f_equal.
      destruct (Nat.ltb_spec i (iterations - 1)); lia. }
    unfold fetch. cbn [signal uncached_request].
    destruct (trial_server (trials i)) as [| t | t o s j]; [exact Hstep | |];
      destruct (5000 <? t); exact Hstep.
Qed.

(** X9.  [benchmarkUncachedLatency] always settles with exactly
    [iterations] samples, because every request carries the 5000 ms abort
    signal and every failure is caught; it pauses 500 ms between two
    requests and not after the last, [iterations - 1] pauses in all. *)
Theorem benchmarkUncachedLatency_samples {B} symbol iterations (trials : nat -> Trial B) :
  exists latencies,
    benchmarkUncachedLatency symbol iterations trials
    = Fulfilled (latencies, 500 * Z.of_nat (iterations - 1)) /\
    length latencies = iterations /\
    latencies = map (elapsed trials) (seq 0 iterations).
Proof.
  exists (map (elapsed trials) (seq 0 iterations)).
  split; [| split; [now rewrite length_map, length_seq | reflexivity]].
  unfold benchmarkUncachedLatency.
  now rewrite (uncachedLoop_samples symbol trials iterations iterations 0%nat [] 0).
Qed.

End BenchmarkFacts.

(** ** Benchmark page: the latency distribution *)
Section DistributionFacts.
Import Js BenchmarkPage.

Lemma Qle_bool_false x y : Qle_bool x y = false -> (y < x)%Q.
Proof.
  intros H. destruct (Qlt_le_dec y x) as [Hlt | Hle]; [exact Hlt |].
  apply Qle_bool_iff in Hle. congruence.
Qed.

(** A sample lies in exactly one range when it is not negative, and in
    none when it is. *)
Lemma within_once (l : Q) :
  sum_list (map (fun r => if within r l then 1%nat else 0%nat) ranges)
  = if Qle_bool 0 l then 1%nat else 0%nat.
Proof.
  unfold ranges, within. cbn [map sum_list range_min range_max].
  destruct (Qle_bool 0 l) eqn:E0; destruct (Qle_bool 0.5 l) eqn:E1;
    destruct (Qle_bool 1.0 l) eqn:E2; destruct (Qle_bool 5.0 l) eqn:E3;
    cbn; try reflexivity;
    exfalso;
    repeat match goal with
           | H : Qle_bool _ _ = true |- _ => apply Qle_bool_iff in H
           | H : Qle_bool _ _ = false |- _ => apply Qle_bool_false in H
           end; lra.
Qed.

Lemma count_filter (f : Q -> bool) (ls : list Q) :
  length (filter (fun l => f l = true) ls)
  = sum_list (map (fun l => if f l then 1%nat else 0%nat) ls).
Proof.
  induction ls as [| l ls IH]; [reflexivity |].
  rewrite filter_cons. cbn [map sum_list].
  destruct (decide (f l = true)) as [-> | Hf]; simpl.
  - now rewrite IH.
  - destruct (f l); [congruence | exact IH].
Qed.

Lemma counts_total (latencies : list Q) :
  sum_list (map count (calculateDistribution latencies))
  = length (filter (fun l => Qle_bool 0 l = true) latencies).
Proof.
  rewrite (count_filter (Qle_bool 0)).
  unfold calculateDistribution. rewrite map_map. cbn [count].
  induction latencies as [| l ls IH].
  - reflexivity.
  - cbn [map sum_list]. rewrite <- IH, <- within_once.
    unfold ranges. cbn [map sum_list]. rewrite !filter_cons.
    repeat match goal with
           | |- context [decide (within ?r l = true)] =>
               destruct (decide (within r l = true)) as [-> | ?];
               [| destruct (within r l); [congruence |]]
           end; simpl; lia.
Qed.

Lemma binary64_1 : (binary64 1 == 1)%Q.
Proof. reflexivity. Qed.

Lemma binary64_100 : (binary64 100 == 100)%Q.
Proof. apply Qeq_bool_iff. vm_compute. reflexivity. Qed.

(** One percentage: a number from 0 to 100, within two roundings of the
    exact percentage. *)
Lemma percent_near (c n : nat) :
  (c <= n)%nat -> (0 < n)%nat -> Z.of_nat n < 2 ^ 32 ->
  exists p,
    percent c n = Num p /\ (0 <= p)%Q /\ (p <= 100)%Q /\
    (Qabs (p - inject_Z (Z.of_nat c) / inject_Z (Z.of_nat n) * 100)
       <= 3 * pow2 (-53) * (inject_Z (Z.of_nat c) / inject_Z (Z.of_nat n) * 100))%Q.
Proof.
  intros Hc Hn H32.
  assert (HN : (1 <= inject_Z (Z.of_nat n))%Q)
    by (change 1%Q with (inject_Z 1); rewrite <- Zle_Qle; lia).
  assert (HC0 : (0 <= inject_Z (Z.of_nat c))%Q)
    by (change 0%Q with (inject_Z 0); rewrite <- Zle_Qle; lia).
  assert (HCN : (inject_Z (Z.of_nat c) <= inject_Z (Z.of_nat n))%Q)
    by (rewrite <- Zle_Qle; lia).
  assert (HN32 : (inject_Z (Z.of_nat n) <= pow2 32)%Q)
    by (rewrite (pow2_Z 32) by lia; rewrite <- Zle_Qle; lia).
  set (C := inject_Z (Z.of_nat c)) in *. set (N := inject_Z (Z.of_nat n)) in *.
  set (q := (C / N)%Q).
  assert (Hq0 : (0 <= q)%Q) by (apply Qle_shift_div_l; lra).
  assert (Hq1 : (q <= 1)%Q) by (apply Qle_shift_div_r; lra).
  set (d := binary64 q).
  assert (Hd0 : (0 <= d)%Q) by (apply binary64_nonneg; exact Hq0).
  assert (Hd1 : (d <= 1)%Q).
  { rewrite <- binary64_1. apply binary64_mono; assumption. }
  set (p := binary64 (d * 100)).
  assert (Hp0 : (0 <= p)%Q) by (apply binary64_nonneg; lra).
  assert (Hp1 : (p <= 100)%Q).
  { rewrite <- binary64_100. apply binary64_mono; lra. }
  assert (Htop : (128 <= pow2 1024)%Q) by (apply (pow2_le 7 1024); lia).
  exists p. split; [| split; [exact Hp0 | split; [exact Hp1 |]]].
  - unfold percent, div_by_length.
    destruct (Nat.eqb_spec n 0) as [|_]; [lia |].
    cbv beta iota. fold C N q. rewrite (number_finite q); fold d.
    + cbn [mul]. apply number_finite. fold p. rewrite Qabs_pos; lra.
    + rewrite Qabs_pos; lra.
  - fold q. pose proof (pow2_pos (-53)) as Hu.
    assert (Hu1 : (pow2 (-53) <= 1 # 2)%Q) by (apply (pow2_le (-53) (-1)); lia).
    destruct (Nat.eq_dec c 0%nat) as [-> | Hc0].
    + assert (Eq : (q == 0)%Q) by (unfold q, C, Qdiv; cbn [Z.of_nat]; ring).
      assert (Ed : (d == 0)%Q) by (unfold d; rewrite (binary64_comp _ _ Eq); reflexivity).
      assert (E100 : (d * 100 == 0)%Q) by (rewrite Ed; ring).
      assert (Ep : (p == 0)%Q)
        by (unfold p; rewrite (binary64_comp _ _ E100); reflexivity).
      rewrite Ep, Eq.
      assert (E0 : (0 - 0 * 100 == 0)%Q) by ring. rewrite E0.
      change (Qabs 0) with 0%Q. lra.
    + assert (HC1 : (1 <= C)%Q)
        by (change 1%Q with (inject_Z 1); unfold C; rewrite <- Zle_Qle; lia).
      assert (E32 : (pow2 (-32) * pow2 32 == 1)%Q)
        by (rewrite <- pow2_plus; reflexivity).
      pose proof (pow2_pos (-32)) as H32p.
      assert (Hqlow : (pow2 (-32) <= q)%Q).
      { apply Qle_shift_div_l; [lra |].
        assert (pow2 (-32) * N <= pow2 (-32) * pow2 32)%Q
          by (apply Qmult_le_l; lra).
        lra. }
      assert (L1 : (pow2 (-1022) <= pow2 (-33))%Q) by (apply pow2_le; lia).
      assert (L2 : (pow2 (-32) == 2 * pow2 (-33))%Q)
        by (rewrite <- pow2_S; reflexivity).
      pose proof (pow2_pos (-33)) as H33.
      pose proof (binary64_normal q) as Hdq. fold d in Hdq.
      rewrite (Qabs_pos q) in Hdq by lra.
      specialize (Hdq ltac:(lra)).
      apply Qabs_Qle_condition in Hdq.
      assert (Huq : (pow2 (-53) * q <= (1 # 2) * q)%Q)
        by (apply Qmult_le_compat_r; lra).
      pose proof (binary64_normal (d * 100)) as Hpd. fold p in Hpd.
      rewrite (Qabs_pos (d * 100)) in Hpd by lra.
      specialize (Hpd ltac:(lra)).
      apply Qabs_Qle_condition in Hpd.
      assert (Hud : (pow2 (-53) * d <= pow2 (-53) * (q + pow2 (-53) * q))%Q)
        by (apply Qmult_le_l; lra).
      assert (Huu : (pow2 (-53) * (pow2 (-53) * q) <= (1 # 2) * (pow2 (-53) * q))%Q).
      { apply Qmult_le_compat_r; [lra |]. apply Qmult_le_0_compat; lra. }
      apply Qabs_Qle_condition.
      revert Hdq Hpd Hud Huu Hu. generalize (pow2 (-53)). intros u. intros.
      clearbody p d q. split; nra.
Qed.

(** X10.  [calculateDistribution] returns the four ranges in order, and
    their counts add up to the number of samples that are not negative:
    each such sample is counted in exactly one range, a negative sample
    in none.  For samples none of which is negative, and at least one (and
    fewer than 2^32, as in every array), each percentage is a number from
    0 to 100 and the four add up to 100 within 300 * 2^-53: every
    percentage is rounded twice, so the sum need not be 100 (for three
    samples in three ranges it is less).  For no samples at all every
    percentage is [NaN]. *)
Theorem calculateDistribution_partition :
  (forall latencies,
      map (fun b => range (bucket b)) (calculateDistribution latencies)
      = ["0.0-0.5µs"; "0.5-1.0µs"; "1.0-5.0µs"; "5.0+µs"] /\
      sum_list (map count (calculateDistribution latencies))
      = length (filter (fun l => Qle_bool 0 l = true) latencies))
  /\ (forall latencies,
        latencies <> [] -> Forall (fun l => (0 <= l)%Q) latencies ->
        Z.of_nat (length latencies) < 2 ^ 32 ->
        exists ps,
          map percentage (calculateDistribution latencies) = map Num ps /\
          Forall (fun p => (0 <= p)%Q /\ (p <= 100)%Q) ps /\
          (Qabs (fold_right Qplus 0 ps - 100) <= 300 * pow2 (-53))%Q)
  /\ (exists ps,
        map percentage (calculateDistribution [0.2; 0.7; 7]%Q) = map Num ps /\
        (fold_right Qplus 0 ps < 100)%Q)
  /\ map percentage (calculateDistribution []) = [NaN; NaN; NaN; NaN].
Proof.
  split; [| split; [| split; [| reflexivity]]].
  - intros latencies. split; [reflexivity | apply counts_total].
  - intros latencies Hne Hpos H32.
    pose proof (counts_total latencies) as Hsum.
    assert (Hall : filter (fun l => Qle_bool 0 l = true) latencies = latencies).
    { clear Hsum Hne H32. induction Hpos as [| l ls Hl _ IH]; [reflexivity |].
      rewrite filter_cons. apply Qle_bool_iff in Hl.
      destruct (decide (Qle_bool 0 l = true)); [now rewrite IH | contradiction]. }
    rewrite Hall in Hsum. clear Hall Hpos.
    assert (Hn : (0 < length latencies)%nat).
    { destruct latencies; [congruence | simpl; lia]. }
    unfold calculateDistribution, ranges in *.
    cbn [map sum_list count percentage] in *.
    set (n := length latencies) in *.
    repeat match goal with
           | H : context [length (filter ?P latencies)] |- _ =>
               let c := fresh "c" in set (c := length (filter P latencies)) in *
           end.
    unfold id in Hsum. clearbody c c0 c1 c2 n.
    destruct (percent_near c n) as (p1 & -> & A1 & B1 & E1);
      [lia | lia | exact H32 |].
    destruct (percent_near c0 n) as (p2 & -> & A2 & B2 & E2);
      [lia | lia | exact H32 |].
    destruct (percent_near c1 n) as (p3 & -> & A3 & B3 & E3);
      [lia | lia | exact H32 |].
    destruct (percent_near c2 n) as (p4 & -> & A4 & B4 & E4);
      [lia | lia | exact H32 |].
    exists [p1; p2; p3; p4]. split; [reflexivity |].
    split; [repeat constructor; assumption |].
    cbn [fold_right].
    assert (Hq : (inject_Z (Z.of_nat c) + inject_Z (Z.of_nat c0)
                  + inject_Z (Z.of_nat c1) + inject_Z (Z.of_nat c2)
                  == inject_Z (Z.of_nat n))%Q).
    { rewrite <- !inject_Z_plus. apply inject_Z_injective. lia. }
    assert (Hn0 : ~ (inject_Z (Z.of_nat n) == 0)%Q).
    { change 0%Q with (inject_Z 0). rewrite inject_Z_injective. lia. }
    assert (E : (inject_Z (Z.of_nat c) / inject_Z (Z.of_nat n) * 100
                 + inject_Z (Z.of_nat c0) / inject_Z (Z.of_nat n) * 100
                 + inject_Z (Z.of_nat c1) / inject_Z (Z.of_nat n) * 100
                 + inject_Z (Z.of_nat c2) / inject_Z (Z.of_nat n) * 100
                 == 100)%Q).
    { transitivity ((inject_Z (Z.of_nat c) + inject_Z (Z.of_nat c0)
                     + inject_Z (Z.of_nat c1) + inject_Z (Z.of_nat c2))
                    / inject_Z (Z.of_nat n) * 100)%Q; [field; exact Hn0 |].
      rewrite Hq. field. exact Hn0. }
    apply Qabs_Qle_condition in E1, E2, E3, E4. apply Qabs_Qle_condition.
    revert E E1 E2 E3 E4.
    generalize (inject_Z (Z.of_nat c) / inject_Z (Z.of_nat n) * 100)%Q
               (inject_Z (Z.of_nat c0) / inject_Z (Z.of_nat n) * 100)%Q
               (inject_Z (Z.of_nat c1) / inject_Z (Z.of_nat n) * 100)%Q
               (inject_Z (Z.of_nat c2) / inject_Z (Z.of_nat n) * 100)%Q
               (pow2 (-53)).
    intros x1 x2 x3 x4 u E. intros.
    assert (Eu : (u * (x1 + x2 + x3 + x4) == u * 100)%Q) by (rewrite E; reflexivity).
    split; nra.
  - eexists [_; _; _; _]. split; [vm_compute; reflexivity |].
    apply Qlt_alt. vm_compute. reflexivity.
Qed.

Lemma calculateDistribution_partition_witness :
  [0.2; 0.7; 7]%Q <> [] /\ Forall (fun l => (0 <= l)%Q) [0.2; 0.7; 7]%Q /\
  Z.of_nat (length [0.2; 0.7; 7]%Q) < 2 ^ 32 /\
  exists ps,
    map percentage (calculateDistribution [0.2; 0.7; 7]%Q) = map Num ps /\
    Forall (fun p => (0 <= p)%Q /\ (p <= 100)%Q) ps /\
    (Qabs (fold_right Qplus 0 ps - 100) <= 300 * pow2 (-53))%Q.
Proof.
  assert (Hpos : Forall (fun l => (0 <= l)%Q) [0.2; 0.7; 7]%Q).
  { repeat constructor; discriminate. }
  split; [discriminate |]. split; [exact Hpos |]. split; [reflexivity |].
  apply (proj1 (proj2 calculateDistribution_partition) [0.2; 0.7; 7]%Q);
    [discriminate | exact Hpos | reflexivity].
Defined.

End DistributionFacts.

(** ** StreamClient: a hook that is left alone *)
Section StreamChainFacts.
Import StreamClient StreamSend.

Lemma closed_lookup ss id r : all_closed ss -> ss !! id = Some r -> r = CLOSED.
Proof. intros Hall Hid. exact (Forall_lookup_1 _ _ _ _ Hall Hid). Qed.

Lemma unscheduled_lookup ts id t :
  none_scheduled ts -> ts !! id = Some t -> timer_state t <> Scheduled.
Proof. intros Hall Hid. exact (Forall_lookup_1 _ _ _ _ Hall Hid). Qed.

Lemma lookup_snoc {A} (l : list A) (x y : A) id :
  (l ++ [x]) !! id = Some y ->
  l !! id = Some y \/ (id = length l /\ y = x).
Proof.
  intros H. apply lookup_app_Some in H as [H | [Hle H]]; [now left |].
  right. destruct (id - length l)%nat as [| k] eqn:E; simpl in H.
  - injection H as <-. split; [lia | reflexivity].
  - destruct k; discriminate.
Qed.

Lemma insert_snoc {A} (l : list A) (x y : A) :
  <[length l := y]> (l ++ [x]) = l ++ [y].
Proof.
  rewrite insert_app_r_alt by lia. now rewrite Nat.sub_diag.
Qed.

Lemma all_closed_snoc ss : all_closed ss -> all_closed (ss ++ [CLOSED]).
Proof. intros H. apply Forall_app. split; [exact H | now repeat constructor]. Qed.

Lemma none_scheduled_snoc ts d s :
  none_scheduled ts -> s <> Scheduled ->
  none_scheduled (ts ++ [ {| delay := d; timer_state := s |} ]).
Proof. intros H Hs. apply Forall_app. split; [exact H | now repeat constructor]. Qed.

(** No browser event can be delivered to a hook whose sockets are all
    closed and whose timers have all fired or been cleared. *)
Lemma quiet_step o ev h :
  all_closed (sockets h) -> none_scheduled (timers h) ->
  browser_event ev -> step o ev h = None.
Proof.
  intros Hs Ht Hev. destruct ev as [| | id | id | id | id | id];
    try contradiction; simpl.
  - destruct (sockets h !! id) as [r |] eqn:E; [| reflexivity].
    now rewrite (closed_lookup _ _ _ Hs E).
  - destruct (sockets h !! id) as [r |] eqn:E; [| reflexivity].
    now rewrite (closed_lookup _ _ _ Hs E).
  - destruct (sockets h !! id) as [r |] eqn:E; [| reflexivity].
    now rewrite (closed_lookup _ _ _ Hs E).
  - destruct (sockets h !! id) as [r |] eqn:E; [| reflexivity].
    now rewrite (closed_lookup _ _ _ Hs E).
  - destruct (timers h !! id) as [[d s] |] eqn:E; [| reflexivity].
    pose proof (unscheduled_lookup _ _ _ Ht E) as Hne. simpl in Hne.
    now destruct s.
Qed.

Lemma connect_chain o h :
  all_closed (sockets h) -> none_scheduled (timers h) -> isConnected h = false ->
  (reconnectAttemptsRef h <= maxReconnectAttempts o)%nat ->
  chain_state o (connect o h).
Proof.
  intros Hs Ht Hc Ha. unfold connect. destruct (ctor_error o).
  - right. right. unfold at_rest. simpl. now repeat split.
  - left. exists (sockets h), CONNECTING. simpl. repeat split; auto.
Qed.

Lemma chain_step o ev h h' :
  browser_event ev -> chain_state o h -> step o ev h = Some h' -> chain_state o h'.
Proof.
  intros Hev [Hlive | [Hwait | Hrest]] Hstep.
  - destruct Hlive as (old & r & Hss & Hold & Hr & Hts & Hws & Hc & Ha).
    destruct ev as [| | id | id | id | id | id]; try contradiction;
      simpl in Hstep.
    + (* open *)
      destruct (sockets h !! id) as [[] |] eqn:E; try discriminate.
      injection Hstep as <-. rewrite Hss in E.
      apply lookup_snoc in E as [E | [-> <-]].
      { now apply (closed_lookup _ _ _ Hold) in E. }
      left. exists old, OPEN. simpl. rewrite Hss, insert_snoc.
      repeat split; auto. lia.
    + (* error *)
      destruct (sockets h !! id) as [[] |] eqn:E; try discriminate;
        injection Hstep as <-; left; exists old, r; simpl; repeat split; auto.
    + (* closing handshake *)
      destruct (sockets h !! id) as [[] |] eqn:E; try discriminate.
      injection Hstep as <-. rewrite Hss in E.
      apply lookup_snoc in E as [E | [-> <-]].
      { now apply (closed_lookup _ _ _ Hold) in E. }
      left. exists old, CLOSING. simpl. rewrite Hss, insert_snoc.
      repeat split; auto.
    + (* close *)
      assert (Hid : id = length old).
      { destruct (sockets h !! id) as [s |] eqn:E; [| discriminate].
        rewrite Hss in E. apply lookup_snoc in E as [E | [-> _]]; [| reflexivity].
        apply (closed_lookup _ _ _ Hold) in E. subst s. discriminate. }
      subst id.
      assert (Hh' : h' = onclose o (set_socket (length old) CLOSED h)).
      { destruct (sockets h !! length old) as [[] |]; congruence. }
      subst h'. unfold onclose, set_socket. simpl. rewrite Hss, insert_snoc.
      destruct (Nat.ltb_spec (reconnectAttemptsRef h) (maxReconnectAttempts o)).
      * right. left. exists (timers h). simpl.
        repeat split; auto using all_closed_snoc.
      * right. right. unfold at_rest. simpl. repeat split; auto using all_closed_snoc.
    + (* timer *)
      destruct (timers h !! id) as [[d s] |] eqn:E; [| discriminate].
      pose proof (unscheduled_lookup _ _ _ Hts E) as Hne. simpl in Hne.
      destruct s; congruence.
  - destruct Hwait as (old & Hss & Hts & Hold & Href & Hc & Ha).
    destruct ev as [| | id | id | id | id | id]; try contradiction;
      simpl in Hstep.
    + destruct (sockets h !! id) as [r |] eqn:E; [| discriminate].
      rewrite (closed_lookup _ _ _ Hss E) in Hstep. discriminate.
    + destruct (sockets h !! id) as [r |] eqn:E; [| discriminate].
      rewrite (closed_lookup _ _ _ Hss E) in Hstep. discriminate.
    + destruct (sockets h !! id) as [r |] eqn:E; [| discriminate].
      rewrite (closed_lookup _ _ _ Hss E) in Hstep. discriminate.
    + destruct (sockets h !! id) as [r |] eqn:E; [| discriminate].
      rewrite (closed_lookup _ _ _ Hss E) in Hstep. discriminate.
    + destruct (timers h !! id) as [[d s] |] eqn:E; [| discriminate].
      destruct s; try discriminate. injection Hstep as <-.
      rewrite Hts in E. apply lookup_snoc in E as [E | [-> E]].
      { apply (unscheduled_lookup _ _ _ Hold) in E. simpl in E. congruence. }
      unfold ontimeout. apply connect_chain; simpl; auto; [| lia].
      rewrite Hts, insert_snoc. now apply none_scheduled_snoc.
  - destruct Hrest as (Hss & Hts & _).
    rewrite (quiet_step o ev h Hss Hts Hev) in Hstep. discriminate.
Qed.

Lemma chain_run o evs : forall h h',
  Forall browser_event evs -> chain_state o h -> run o evs h = Some h' ->
  chain_state o h'.
Proof.
  induction evs as [| ev evs IH]; simpl; intros h h' Hevs Hh Hrun.
  - now injection Hrun as <-.
  - apply Forall_cons in Hevs as [Hev Hevs].
    destruct (step o ev h) as [h1 |] eqn:E; [| discriminate].
    apply (IH h1 h'); [exact Hevs | eapply chain_step; eassumption | exact Hrun].
Qed.

(** X11.  While the component makes no call after the first [connect()],
    whatever the browser delivers, the hook is always in one of three
    states: its current socket is connecting, open or in a closing
    handshake started by the server, every earlier socket is closed and no
    timer is waiting; or every socket is closed and exactly one timer is
    waiting, the one [reconnectTimeoutRef] names, with the backoff delay of
    the current attempt number; or every socket is closed and nothing is
    waiting.  In all of them [isConnected] is true exactly when the current
    socket is open or closing (from its [open] event to its [close]
    event), and the attempt counter does not exceed the maximum. *)
Theorem single_connection_chain o evs h :
  Forall browser_event evs ->
  run o (CallConnect :: evs) mounted = Some h ->
  chain_state o h.
Proof.
  intros Hevs Hrun. simpl in Hrun.
  eapply chain_run; [exact Hevs | | exact Hrun].
  apply connect_chain; simpl; try constructor. lia.
Qed.

Lemma single_connection_chain_witness :
  Forall browser_event
    [Closed 0%nat; TimerFired 0%nat; Opened 1%nat; Closing 1%nat] /\
  (exists h,
      run defaults
        (CallConnect :: [Closed 0%nat; TimerFired 0%nat; Opened 1%nat; Closing 1%nat])
        mounted = Some h /\ chain_state defaults h).
Proof.
  assert (Hevs : Forall browser_event
                   [Closed 0%nat; TimerFired 0%nat; Opened 1%nat; Closing 1%nat]).
  { repeat constructor. }
  split; [exact Hevs |]. eexists. split; [vm_compute; reflexivity |].
  apply (single_connection_chain defaults
           [Closed 0%nat; TimerFired 0%nat; Opened 1%nat; Closing 1%nat]);
    [exact Hevs |].
  vm_compute; reflexivity.
Defined.

Lemma close_closed id ss : all_closed ss -> close id ss = ss.
Proof.
  intros H. unfold close. destruct (ss !! id) as [r |] eqn:E; [| reflexivity].
  now rewrite (closed_lookup _ _ _ H E).
Qed.

(** X12.  [disconnect()] does stop reconnection when it is called while
    no socket is alive, that is during the wait before a reconnection or
    after the attempts are used up: it clears the waiting timer, and from
    then on the browser has no event left to deliver, so nothing happens
    until the component calls [connect()] again. *)
Theorem disconnect_while_waiting_is_final o h :
  chain_state o h -> all_closed (sockets h) ->
  all_closed (sockets (disconnect h)) /\
  none_scheduled (timers (disconnect h)) /\
  wsRef (disconnect h) = None /\
  forall ev evs, browser_event ev -> run o (ev :: evs) (disconnect h) = None.
Proof.
  intros Hh Hss.
  assert (Hs' : sockets (disconnect h) = sockets h).
  { unfold disconnect. simpl. destruct (wsRef h); [now apply close_closed | reflexivity]. }
  assert (Ht' : none_scheduled (timers (disconnect h))).
  { destruct Hh as [Hlive | [Hwait | Hrest]].
    - destruct Hlive as (old & r & Hr & _ & [-> | [-> | ->]] & _);
        rewrite Hr in Hss; apply Forall_app in Hss as [_ Hss];
        apply Forall_cons in Hss as [Hss _]; discriminate.
    - destruct Hwait as (old & _ & Hts & Hold & Href & _).
      unfold disconnect. simpl. rewrite Href, Hts. unfold clearTimeout.
      rewrite lookup_app_r by lia. rewrite Nat.sub_diag. simpl.
      rewrite insert_snoc. now apply none_scheduled_snoc.
    - destruct Hrest as (_ & Hts & _). unfold disconnect. simpl.
      destruct (reconnectTimeoutRef h) as [id |]; [| exact Hts].
      unfold clearTimeout. destruct (timers h !! id) as [[d s] |] eqn:E; [| exact Hts].
      pose proof (unscheduled_lookup _ _ _ Hts E) as Hne. simpl in Hne.
      now destruct s. }
  split; [now rewrite Hs' |]. split; [exact Ht' |]. split; [reflexivity |].
  intros ev evs Hev. simpl.
  rewrite (quiet_step o ev (disconnect h)); [reflexivity | | exact Ht' | exact Hev].
  now rewrite Hs'.
Qed.

Lemma disconnect_while_waiting_is_final_witness :
  chain_state defaults first_failure /\ all_closed (sockets first_failure) /\
  all_closed (sockets (disconnect first_failure)) /\
  none_scheduled (timers (disconnect first_failure)) /\
  wsRef (disconnect first_failure) = None /\
  forall ev evs, browser_event ev ->
    run defaults (ev :: evs) (disconnect first_failure) = None.
Proof.
  assert (Hc : chain_state defaults first_failure).
  { right. left. exists []. repeat split; try constructor; auto; simpl; lia. }
  assert (Hs : all_closed (sockets first_failure)) by (repeat constructor).
  split; [exact Hc |]. split; [exact Hs |].
  exact (disconnect_while_waiting_is_final defaults first_failure Hc Hs).
Defined.



End StreamChainFacts.

(** ** Bounded histories *)
Section HistoryFacts.
Import Js Exporter Observability.

Lemma newest_all {A} (k : nat) (l : list A) : (length l <= k)%nat -> newest k l = l.
Proof.
  intros H. unfold newest. replace (length l - k)%nat with 0%nat by lia.
  apply drop_0.
Qed.

Lemma newest_length {A} (k : nat) (l : list A) :
  length (newest k l) = Nat.min k (length l).
Proof. unfold newest. rewrite length_drop. lia. Qed.

Lemma newest_snoc {A} (k : nat) (l : list A) (x : A) :
  newest k l ++ [x] = newest (S k) (l ++ [x]).
Proof.
  unfold newest. rewrite length_app. simpl.
  rewrite drop_app_le by lia. do 2 f_equal. lia.
Qed.

Lemma newest_newest_app {A} (k : nat) (l m : list A) :
  newest k (newest k l ++ m) = newest k (l ++ m).
Proof.
  unfold newest. rewrite !length_app, length_drop.
  destruct (Nat.le_gt_cases (length l) k) as [Hle | Hgt].
  - replace (length l - k)%nat with 0%nat by lia. rewrite drop_0.
    f_equal. lia.
  - replace (length l - (length l - k) + length m - k)%nat
      with (length m) by lia.
    replace (length l + length m - k)%nat
      with (length l - k + length m)%nat by lia.
    rewrite <- drop_drop. now rewrite (drop_app_le l m) by lia.
Qed.

Lemma receiveAll_accepted messages : forall history,
  fold_left (fun h m => onMessage m.1 m.2 h) messages history
  = fold_left append (omap accepted messages) history.
Proof.
  induction messages as [| [iso msg] ms IH]; intros history; [reflexivity |].
  simpl. rewrite IH. unfold accepted, onMessage. simpl.
  destruct (String.eqb (type msg) "stats"); [| reflexivity].
  now destruct (data msg).
Qed.

(** X14.  Whatever messages arrive on the stream, the metrics history of
    the Observability page holds the snapshots of the last 100 messages of
    type "stats" that carry data, in arrival order; messages of another
    type, or without data, leave it as it is. *)
Theorem receiveAll_keeps_last_stats (messages : list (string * Message)) :
  let snapshots := omap accepted messages in
  receiveAll messages = drop (length snapshots - 100) snapshots
  /\ length (receiveAll messages) = Nat.min 100 (length snapshots)
  /\ (forall m, accepted m = None ->
        receiveAll (messages ++ [m]) = receiveAll messages).
Proof.
  cbv zeta.
  assert (H : receiveAll messages = newest capacity (omap accepted messages)).
  { unfold receiveAll. rewrite receiveAll_accepted. apply appendAll_newest. }
  split; [exact H |]. split.
  - rewrite H. apply newest_length.
  - intros m Hm. unfold receiveAll. rewrite !receiveAll_accepted.
    now rewrite omap_app; simpl; rewrite Hm, app_nil_r.
Qed.

Lemma receiveAll_keeps_last_stats_witness :
  accepted ("12:00:01", {| type := "ping"; data := None |}) = None /\
  receiveAll ([] ++ [("12:00:01", {| type := "ping"; data := None |})])
  = receiveAll [].
Proof.
  split; [reflexivity |].
  apply (proj2 (proj2 (receiveAll_keeps_last_stats []))). reflexivity.
Defined.

Lemma slice_neg {A} (k : positive) (l : list A) :
  slice (Z.neg k) l = newest (Pos.to_nat k) l.
Proof. unfold slice, newest. simpl. f_equal. lia. Qed.

Lemma keep_last_fold {A B} (k : nat) (f : B -> A) (push : list A -> B -> list A) :
  (forall prev b, push prev b = newest (S k) (prev ++ [f b])) ->
  forall (bs : list B) (init : list A),
    bs <> [] -> fold_left push bs init = newest (S k) (init ++ map f bs).
Proof.
  intros Hpush bs init. induction bs as [| b bs IH] using rev_ind; [congruence |].
  intros _. rewrite fold_left_app. simpl. rewrite Hpush.
  destruct bs as [| b0 bs].
  - reflexivity.
  - rewrite IH by discriminate. rewrite newest_newest_app.
    now rewrite map_app, app_assoc.
Qed.

(** X15.  The latency series of the Home page and the history of the
    metrics panel keep the latest 20 points: after at least one update the
    list is the last 20 elements of the earlier list followed by the new
    points, in order, so it never has more than 20 points and a list of
    20 keeps its length. *)
Theorem panels_keep_last_20 :
  (forall updates latencyData,
      updates <> [] ->
      Home.pushLatencyAll updates latencyData
      = drop (length latencyData + length updates - 20)
             (latencyData ++ map latencyPoint updates)
      /\ length (Home.pushLatencyAll updates latencyData)
         = Nat.min 20 (length latencyData + length updates))
  /\ (forall points history,
        points <> [] ->
        pushHistoryAll points history
        = drop (length history + length points - 20) (history ++ points)
        /\ length (pushHistoryAll points history)
           = Nat.min 20 (length history + length points)).
Proof.
  split.
  - intros updates latencyData Hne.
    assert (H : Home.pushLatencyAll updates latencyData
                = newest 20 (latencyData ++ map latencyPoint updates)).
    { unfold Home.pushLatencyAll.
      apply (keep_last_fold 19 latencyPoint
               (fun prev u => Home.pushLatency u.1.1 u.1.2 u.2 prev)); [| exact Hne].
      intros prev u. unfold Home.pushLatency. rewrite slice_neg.
      apply (newest_snoc 19). }
    split.
    + rewrite H. unfold newest. now rewrite length_app, length_map.
    + rewrite H, newest_length, length_app, length_map. reflexivity.
  - intros points history Hne.
    assert (H : pushHistoryAll points history = newest 20 (history ++ points)).
    { unfold pushHistoryAll.
      rewrite <- (map_id points) at 2.
      apply (keep_last_fold 19 id
               (fun prev p => MetricsPanel.pushHistory p prev)); [| exact Hne].
      intros prev p. unfold MetricsPanel.pushHistory. rewrite slice_neg.
      apply (newest_snoc 19). }
    split.
    + rewrite H. unfold newest. now rewrite length_app.
    + rewrite H, newest_length, length_app. reflexivity.
Qed.

Lemma panels_keep_last_20_witness :
  [("12:00:00", 0.4%Q, 0.5%Q)] <> [] /\
  length (Home.pushLatencyAll [("12:00:00", 0.4%Q, 0.5%Q)] []) = 1%nat.
Proof.
  split; [discriminate |].
  apply (proj1 panels_keep_last_20 [("12:00:00", 0.4%Q, 0.5%Q)] []). discriminate.
Defined.

Lemma pushPoint_newest {A} (k : nat) (x : A) (prev : list A) :
  PriceChart.pushPoint (Z.of_nat (S k)) x prev = newest (S k) (prev ++ [x]).
Proof.
  unfold PriceChart.pushPoint.
  destruct (Z.gtb_spec (Z.of_nat (length (prev ++ [x]))) (Z.of_nat (S k))) as [Hgt | Hle].
  - unfold slice, newest.
    destruct (Z.ltb_spec (- Z.of_nat (S k)) 0); [| lia]. f_equal. lia.
  - symmetry. apply newest_all. lia.
Qed.

Lemma chartHistory_plotted {A P} (maxDataPoints : Z) (runs : list (option P * bool * A)) :
  forall init,
    fold_left (fun prev e => PriceChart.onPrices e.1.1 e.1.2 maxDataPoints e.2 prev)
              runs init
    = fold_left (fun prev x => PriceChart.pushPoint maxDataPoints x prev)
                (omap plotted runs) init.
Proof.
  induction runs as [| [[p b] x] runs IH]; intros init; [reflexivity |].
  simpl. rewrite IH. unfold plotted, PriceChart.onPrices. simpl.
  destruct p; [| reflexivity]. now destruct b.
Qed.

(** X16.  The price history of the chart holds the points of the runs of
    its effect that had prices and were not paused.  For a limit of at
    least one point it is the last [maxDataPoints] of them, in order.  For
    a limit of 0 it is never trimmed and holds all of them.  For a
    negative limit it stays empty. *)
Theorem chartHistory_limits {A P} (maxDataPoints : Z) (runs : list (option P * bool * A)) :
  let points := omap plotted runs in
  (1 <= maxDataPoints ->
   chartHistory maxDataPoints runs
   = drop (length points - Z.to_nat maxDataPoints) points
   /\ Z.of_nat (length (chartHistory maxDataPoints runs)) <= maxDataPoints)
  /\ (maxDataPoints = 0 -> chartHistory maxDataPoints runs = points)
  /\ (maxDataPoints < 0 -> chartHistory maxDataPoints runs = []).
Proof.
  cbv zeta. unfold chartHistory. rewrite chartHistory_plotted.
  generalize (omap plotted runs). intros points. split; [| split].
  - intros Hmax. destruct (Z.to_nat maxDataPoints) as [| k] eqn:Ek; [lia |].
    replace maxDataPoints with (Z.of_nat (S k)) by lia.
    assert (H : fold_left (fun prev x => PriceChart.pushPoint (Z.of_nat (S k)) x prev)
                  points [] = newest (S k) points).
    { destruct points as [| p ps]; [reflexivity |].
      rewrite (keep_last_fold k id
                 (fun prev x => PriceChart.pushPoint (Z.of_nat (S k)) x prev));
        [now rewrite map_id | | discriminate].
      intros prev x. apply pushPoint_newest. }
    rewrite H. split; [reflexivity |]. rewrite newest_length. lia.
  - intros ->. induction points as [| p ps IH] using rev_ind; [reflexivity |].
    rewrite fold_left_app. simpl. rewrite IH. unfold PriceChart.pushPoint.
    destruct (Z.gtb_spec (Z.of_nat (length (ps ++ [p]))) 0) as [_ | Hle].
    + unfold slice. change (- 0 <? 0) with false. cbv iota.
      rewrite Z.min_l by lia. reflexivity.
    + rewrite length_app in Hle. simpl in Hle. lia.
  - intros Hneg. induction points as [| p ps IH] using rev_ind; [reflexivity |].
    rewrite fold_left_app. simpl. rewrite IH. unfold PriceChart.pushPoint. simpl.
    destruct (Z.gtb_spec (Z.of_nat 1) maxDataPoints) as [_ | Hle]; [| lia].
    unfold slice. simpl.
    destruct (Z.ltb_spec (- maxDataPoints) 0); [lia |].
    replace (Z.to_nat (Z.min (- maxDataPoints) (Z.of_nat 1))) with 1%nat by lia.
    reflexivity.
Qed.

Lemma chartHistory_limits_witness :
  1 <= 2 /\
  chartHistory 2 [(Some tt, false, "a"); (None, false, "b"); (Some tt, true, "c");
                  (Some tt, false, "d"); (Some tt, false, "e")]
  = ["d"; "e"].
Proof.
  split; [lia |].
  apply (proj1 (chartHistory_limits 2
           [(Some tt, false, "a"); (None, false, "b"); (Some tt, true, "c");
            (Some tt, false, "d"); (Some tt, false, "e")])).
  lia.
Defined.

Lemma remove_then_add (s : string) (X : gset string) :
  s ∈ X -> X ∖ {[s]} ∪ {[s]} = X.
Proof.
  intros Hin. rewrite (union_difference_singleton_L s X Hin) at 2.
  apply union_comm_L.
Qed.

Lemma add_then_remove (s : string) (X : gset string) :
  s ∉ X -> (X ∪ {[s]}) ∖ {[s]} = X.
Proof.
  intros Hout. apply set_eq. intros x.
  rewrite elem_of_difference, elem_of_union, elem_of_singleton.
  split; [intros [[H | H] Hne]; [exact H | contradiction] |].
  intros H. split; [now left |]. now intros ->.
Qed.

Lemma size_at_least_one (X : gset string) : X <> ∅ -> (1 <= size X)%nat.
Proof.
  intros Hne. destruct (size X) eqn:E; [| lia].
  apply size_empty_iff, leibniz_equiv in E. contradiction.
Qed.

Lemma toggle_only_stock (s : string) :
  PriceChart.toggleStock s {[s]} = {[s]}.
Proof.
  unfold PriceChart.toggleStock.
  destruct (decide (s ∈ ({[s]} : gset string))) as [_ | Hn].
  - now rewrite size_singleton.
  - exfalso. apply Hn. now apply elem_of_singleton.
Qed.

(** X17.  Toggling a stock never empties the selection of the chart, and
    toggling the same stock twice gives back the selection one started
    from; the last selected stock cannot be deselected. *)
Theorem toggleStock_keeps_selection (symbol : string) (prev : gset string) :
  prev <> ∅ ->
  PriceChart.toggleStock symbol prev <> ∅
  /\ PriceChart.toggleStock symbol (PriceChart.toggleStock symbol prev) = prev
  /\ PriceChart.toggleStock symbol {[symbol]} = {[symbol]}.
Proof.
  intros Hne. pose proof (size_at_least_one prev Hne) as Hsz.
  split; [| split; [| apply toggle_only_stock]];
    unfold PriceChart.toggleStock;
    destruct (decide (symbol ∈ prev)) as [Hin | Hout].
  - destruct (Nat.ltb_spec 1 (size prev)) as [Hbig | Hsmall]; [| exact Hne].
    intros E.
    assert (Hs : size (prev ∖ {[symbol]}) = 0%nat) by (rewrite E; apply size_empty).
    rewrite size_difference in Hs by now apply singleton_subseteq_l.
    rewrite size_singleton in Hs. lia.
  - intros E. apply (not_elem_of_empty (C := gset string) symbol).
    rewrite <- E. apply elem_of_union_r. now apply elem_of_singleton.
  - destruct (Nat.ltb_spec 1 (size prev)) as [Hbig | Hsmall].
    + destruct (decide (symbol ∈ prev ∖ {[symbol]})) as [Hbad | _].
      * apply elem_of_difference in Hbad as [_ Hbad]. exfalso. apply Hbad.
        now apply elem_of_singleton.
      * now apply remove_then_add.
    + destruct (decide (symbol ∈ prev)); [| contradiction].
      destruct (Nat.ltb_spec 1 (size prev)); [lia | reflexivity].
  - destruct (decide (symbol ∈ prev ∪ {[symbol]})) as [_ | Hbad].
    + assert (Hs : size (prev ∪ {[symbol]}) = S (size prev)).
      { rewrite size_union by now apply disjoint_singleton_r.
        rewrite size_singleton. lia. }
      rewrite Hs. destruct (Nat.ltb_spec 1 (S (size prev))); [| lia].
      now apply add_then_remove.
    + exfalso. apply Hbad. apply elem_of_union_r. now apply elem_of_singleton.
Qed.

Lemma toggleStock_keeps_selection_witness :
  PriceChart.allStocks <> ∅ /\
  PriceChart.toggleStock "TSLA" PriceChart.allStocks <> ∅.
Proof.
  assert (H : PriceChart.allStocks <> ∅).
  { intros E. apply (not_elem_of_empty (C := gset string) "TSLA").
    rewrite <- E. unfold PriceChart.allStocks.
    apply elem_of_union_r. now apply elem_of_singleton. }
  split; [exact H |].
  exact (proj1 (toggleStock_keeps_selection "TSLA" PriceChart.allStocks H)).
Defined.

End HistoryFacts.

(** ** Export: the summaries and the file name *)
Section ExportJsonFacts.
Import Js Exporter ExporterJson.

















Lemma split_app sep (a b : string) :
  occurs sep a = false ->
  exists piece pieces,
    split sep b = piece :: pieces /\
    split sep (a +:+ b) = (a +:+ piece) :: pieces.
Proof.
  induction a as [| c a IH]; simpl; intros Hocc.
  - destruct b as [| c b]; simpl; [eauto |].
    destruct (Ascii.eqb c sep); [eauto |].
    destruct (split sep b); eauto.
  - apply orb_false_elim in Hocc as [Hc Ha]. rewrite Hc.
    destruct (IH Ha) as (piece & pieces & Hb & Hab).
    exists piece, pieces. split; [exact Hb |]. now rewrite Hab.
Qed.

Lemma append_cons c (a b : string) : String c a +:+ b = String c (a +:+ b).
Proof. reflexivity. Qed.

Lemma append_empty (a : string) : a +:+ EmptyString = a.
Proof.
  induction a as [| c a IH]; [reflexivity |]. now rewrite append_cons, IH.
Qed.

Lemma split_head_char sep c (rest : string) :
  Ascii.eqb c sep = false ->
  exists x xs, split sep (String c rest) = String c x :: xs.
Proof.
  intros Hc. simpl. rewrite Hc. destruct (split sep rest); eauto.
Qed.

Lemma split_at sep (a b : string) :
  occurs sep a = false ->
  split sep (a +:+ String sep b) = a :: split sep b.
Proof.
  intros Ha. destruct (split_app sep a (String sep b) Ha) as (p & ps & Hb & ->).
  simpl in Hb. rewrite Ascii.eqb_refl in Hb. injection Hb as <- <-.
  f_equal. apply append_empty.
Qed.

Lemma replaceAll_app class (a b : string) :
  replaceAll class (a +:+ b) = replaceAll class a +:+ replaceAll class b.
Proof.
  induction a as [| c a IH]; [reflexivity |].
  rewrite append_cons. simpl. now rewrite append_cons, IH.
Qed.

Lemma occurs_T_replaced (a : string) :
  occurs "T" (replaceAll colon_or_dot a) = occurs "T" a.
Proof.
  induction a as [| c a IH]; simpl; [reflexivity |]. rewrite IH. f_equal.
  unfold colon_or_dot.
  destruct (Ascii.eqb_spec c ":") as [-> | _]; [reflexivity |].
  destruct (Ascii.eqb_spec c ".") as [-> | _]; reflexivity.
Qed.

Lemma split_none sep (a : string) : occurs sep a = false -> split sep a = [a].
Proof.
  induction a as [| c a IH]; simpl; [reflexivity |]. intros H.
  apply orb_false_elim in H as [Hc Ha]. now rewrite Hc, (IH Ha).
Qed.

(** X20.  For time stamps of the form date "T" time "." rest, the file
    name is prefix "_" date "_" time "." extension, with every colon and
    point of the date and every colon of the time turned into a hyphen; the
    date is read from the first time stamp and the time from the second.
    For a second time stamp without "T" the function raises instead. *)
Theorem generateFilename_iso prefix format :
  (forall date1 rest1 date2 clock rest2,
      occurs "T" date1 = false -> occurs "T" date2 = false ->
      occurs "T" clock = false -> occurs "." clock = false ->
      generateFilename (date1 +:+ "T" +:+ rest1)
                       (date2 +:+ "T" +:+ clock +:+ "." +:+ rest2) prefix format
      = Normal (prefix +:+ "_" +:+ replaceAll colon_or_dot date1 +:+ "_"
                +:+ replaceAll colon clock +:+ "." +:+ extension format))
  /\ (forall iso1 iso2,
        occurs "T" iso2 = false ->
        generateFilename iso1 iso2 prefix format = Throw MalformedPayload).
Proof.
  split.
  - intros date1 rest1 date2 clock rest2 H1 H2 H3 H4.
    assert (Hdate : split "T" (replaceAll colon_or_dot (date1 +:+ "T" +:+ rest1)) !! 0%nat
                    = Some (replaceAll colon_or_dot date1)).
    { rewrite replaceAll_app.
      change (replaceAll colon_or_dot ("T" +:+ rest1))
        with (String "T" (replaceAll colon_or_dot rest1)).
      rewrite split_at by now rewrite occurs_T_replaced. reflexivity. }
    assert (Hclock : exists x,
               split "T" (date2 +:+ "T" +:+ clock +:+ "." +:+ rest2) !! 1%nat
               = Some (clock +:+ String "." x)).
    { change ("T" +:+ clock +:+ "." +:+ rest2)
        with (String "T" (clock +:+ String "." rest2)).
      rewrite split_at by exact H2.
      destruct (split_head_char "T" "." rest2 eq_refl) as (x & xs & Hx).
      destruct (split_app "T" clock (String "." rest2) H3) as (p & ps & Hb & Hab).
      rewrite Hx in Hb. injection Hb as <- <-. rewrite Hab. now exists x. }
    destruct Hclock as [x Hclock].
    unfold generateFilename. rewrite Hdate, Hclock.
    rewrite split_at by exact H4. reflexivity.
  - intros iso1 iso2 H. unfold generateFilename.
    now rewrite (split_none "T" iso2 H).
Qed.

Lemma generateFilename_iso_witness :
  occurs "T" "2026-11-02" = false /\ occurs "T" "07:37:05" = false /\
  occurs "." "07:37:05" = false /\
  generateFilename "2026-11-02T07:37:05.123Z" "2026-11-02T07:37:05.124Z"
                   "benchmark-results" csv
  = Normal "benchmark-results_2026-11-02_07-37-05.csv".
Proof.
  split; [reflexivity |]. split; [reflexivity |]. split; [reflexivity |].
  apply (proj1 (generateFilename_iso "benchmark-results" csv)
           "2026-11-02" "07:37:05.123Z" "2026-11-02" "07:37:05" "124Z");
    reflexivity.
Defined.

End ExportJsonFacts.

(** ** Ticker *)
Section TickerFacts.
Import Ticker.









End TickerFacts.
